(** * Chef_wrapper: the two session brokers

    A shallow embedding of the two Deno edge functions of the repository:

    - the LLM key vault  ([LlmProxy], source file [src/unnamed/part_000]),
      which keeps a table [apiKeySessions] of provider keys per session;
    - the GitHub proxy   ([GithubProxy], source file [src/unnamed/part_001]),
      which keeps a table [sessions] of bearer tokens and forwards calls.

    Both handlers are written in a small state-and-exception monad over a
    world that holds the session table, the number of clock readings and
    random draws made so far, and the list of outbound [fetch] calls.  The
    clock, the random source and the upstream server are oracles of the
    environment.

    Modelling conventions.
    - Request fields ([action], [sessionId], [provider], ...) are strings or
      absent, as the tables' declared key and value types have them; the
      request [body] of a proxied call is any JSON value.
    - JavaScript strings are byte strings; numbers that occur (clock
      readings, status codes) are integers and are kept in [Z].
    - [console.log] and [console.error] have no effect on the table or the
      response and are left out, except where evaluating their argument can
      throw.
    - [new Response] is a record constructor: the checks the runtime makes
      on a status code when it builds a response are not modelled.
    - One request is handled at a time. *)

From Stdlib Require Import ZArith NArith Lia Bool Ascii String.
From Stdlib Require Import DecimalString.
From stdpp Require Import gmap strings list fin_maps.

Set Warnings "-register-all,-clear-no-such-hyp".
Local Open Scope string_scope.
Local Open Scope list_scope.
Local Open Scope Z_scope.

(** ** JavaScript values used by the handlers *)

Module JS.

(** The double-quote and backslash characters, by code. *)
Definition dquote : ascii := ascii_of_nat 34.
Definition backslash : ascii := ascii_of_nat 92.

(** [!s] is false exactly for a present, non-empty string: [undefined],
    [null] and the empty string are falsy. *)
Definition truthy (s : option string) : bool :=
  match s with
  | Some (String _ _) => true
  | _ => false
  end.

(** [a || d] on an optional string with a string default. *)
Definition or_default (a : option string) (d : string) : string :=
  match a with
  | Some (String c r) => String c r
  | _ => d
  end.

(** [s.startsWith(p)] *)
Definition startsWith (s p : string) : bool := String.prefix p s.

(** [s.includes(p)]: [p] occurs in [s] as a contiguous run. *)
Fixpoint includes (s p : string) : bool :=
  String.prefix p s ||
  match s with
  | EmptyString => false
  | String _ r => includes r p
  end.

(** [s.padStart(2, '0')] *)
Definition padStart2 (s : string) : string :=
  match s with
  | EmptyString => "00"
  | String c EmptyString => String "0" (String c EmptyString)
  | _ => s
  end.

Definition hexdigit (d : N) : ascii :=
  match d with
  | 0 => "0" | 1 => "1" | 2 => "2" | 3 => "3" | 4 => "4" | 5 => "5"
  | 6 => "6" | 7 => "7" | 8 => "8" | 9 => "9" | 10 => "a" | 11 => "b"
  | 12 => "c" | 13 => "d" | 14 => "e" | _ => "f"
  end%N%char.

(** [byte.toString(16)] for an element of a [Uint8Array]: one digit below
    16, two digits otherwise (the element is below 256). *)
Definition toString16 (b : N) : string :=
  if (b <? 16)%N then String (hexdigit b) EmptyString
  else String (hexdigit (b / 16)) (String (hexdigit (b mod 16)) EmptyString).

(** [arr.join('')] *)
Definition join (l : list string) : string := foldr String.append EmptyString l.

(** JSON values: what [req.json()], [response.json()] return and what
    [JSON.stringify] takes.  An object keeps its members in order. *)
Inductive json :=
| JNull
| JBool (b : bool)
| JNum (z : Z)
| JStr (s : string)
| JArr (items : list json)
| JObj (members : list (string * json)).

(** Truthiness of a JSON value, for [body ? ... : ...]. *)
Definition json_truthy (j : option json) : bool :=
  match j with
  | None | Some JNull | Some (JBool false) | Some (JNum 0) | Some (JStr EmptyString) => false
  | Some _ => true
  end.

(** A nullable string as a JSON value ([headers.get] gives [null] when the
    header is absent). *)
Definition nullable (s : option string) : json :=
  match s with
  | Some v => JStr v
  | None => JNull
  end.

Definition string_of_Z (z : Z) : string := NilZero.string_of_int (Z.to_int z).

(** The escape of one character inside a JSON string literal. *)
Definition escape_char (c : ascii) : string :=
  let n := nat_of_ascii c in
  if decide (n = 34)%nat then String backslash (String dquote EmptyString)
  else if decide (n = 92)%nat then String backslash (String backslash EmptyString)
  else if decide (n = 8)%nat then String backslash "b"
  else if decide (n = 9)%nat then String backslash "t"
  else if decide (n = 10)%nat then String backslash "n"
  else if decide (n = 12)%nat then String backslash "f"
  else if decide (n = 13)%nat then String backslash "r"
  else if decide (n < 32)%nat then
    String backslash ("u00" +:+ padStart2 (toString16 (N.of_nat n)))
  else String c EmptyString.

Fixpoint escape (s : string) : string :=
  match s with
  | EmptyString => EmptyString
  | String c r => escape_char c +:+ escape r
  end.

Definition quote (s : string) : string :=
  String dquote (escape s +:+ String dquote EmptyString).

(** [JSON.stringify] without indentation. *)
Fixpoint JSON_stringify (j : json) : string :=
  match j with
  | JNull => "null"
  | JBool true => "true"
  | JBool false => "false"
  | JNum z => string_of_Z z
  | JStr s => quote s
  | JArr items =>
      "[" +:+
      (fix go (l : list json) : string :=
         match l with
         | [] => EmptyString
         | [x] => JSON_stringify x
         | x :: r => JSON_stringify x +:+ "," +:+ go r
         end) items +:+ "]"
  | JObj members =>
      "{" +:+
      (fix go (l : list (string * json)) : string :=
         match l with
         | [] => EmptyString
         | [(k, v)] => quote k +:+ ":" +:+ JSON_stringify v
         | (k, v) :: r => quote k +:+ ":" +:+ JSON_stringify v +:+ "," +:+ go r
         end) members +:+ "}"
  end.

(** *** Plain objects used as dictionaries

    [{}] is an ordinary object: its own properties are kept in creation
    order, and a property read that finds no own property continues on
    [Object.prototype]. *)

Definition object := list (string * string).

Definition own (o : object) (k : string) : option string :=
  snd <$> List.find (fun kv => bool_decide (kv.1 = k)) o.

(** [o[k] = v]: an existing own property keeps its place, a new one is
    added last.  (Every member of [Object.prototype] that the runtime keeps
    is a writable data property, so the assignment defines an own property
    also when [k] names one of them.) *)
Fixpoint obj_set (o : object) (k v : string) : object :=
  match o with
  | [] => [(k, v)]
  | (k', v') :: r => if decide (k' = k) then (k, v) :: r else (k', v') :: obj_set r k v
  end.

(** [delete o[k]] *)
Definition obj_delete (o : object) (k : string) : object :=
  List.filter (fun kv => negb (bool_decide (kv.1 = k))) o.

(** The members of [Object.prototype] in the Deno runtime (which removes
    the [__proto__] accessor at start-up).  All of them are functions. *)
Definition Object_prototype : list string :=
  [ "constructor"; "hasOwnProperty"; "isPrototypeOf"; "propertyIsEnumerable";
    "toLocaleString"; "toString"; "valueOf";
    "__defineGetter__"; "__defineSetter__"; "__lookupGetter__"; "__lookupSetter__" ].

(** What a property read [o[k]] yields. *)
Inductive value :=
| Undefined
| Str (s : string)
| Builtin (name : string).

Definition obj_get (o : object) (k : string) : value :=
  match own o k with
  | Some v => Str v
  | None => if bool_decide (k ∈ Object_prototype) then Builtin k else Undefined
  end.

(** [v ? true : false] *)
Definition value_truthy (v : value) : bool :=
  match v with
  | Undefined => false
  | Str s => truthy (Some s)
  | Builtin _ => true
  end.

(** A canonical array index: the decimal numeral, without leading zeros, of
    an integer below 2^32 - 1. *)
Definition array_index (k : string) : option N :=
  match NilZero.uint_of_string k with
  | Some d =>
      let n := N.of_uint d in
      if bool_decide (NilZero.string_of_uint (N.to_uint n) = k) && (n <? 4294967295)%N
      then Some n else None
  | None => None
  end.

Fixpoint insert_sorted (x : N * string) (l : list (N * string)) : list (N * string) :=
  match l with
  | [] => [x]
  | y :: r => if (x.1 <? y.1)%N then x :: y :: r else y :: insert_sorted x r
  end.

(** [Object.keys(o)]: the own property names, array indices first in
    ascending order, then the other names in creation order. *)
Definition Object_keys (o : object) : list string :=
  let names := fst <$> o in
  let idx := omap (fun k => (fun n => (n, k)) <$> array_index k) names in
  (snd <$> foldr insert_sorted [] idx) ++
  List.filter (fun k => bool_decide (array_index k = None)) names.

End JS.

(** ** The runtime: environment, world and the handler monad *)

Module Runtime.

(** An outbound call [fetch(url, {method, headers, body})]. *)
Record fetch_request := FetchRequest {
  rq_url : string;
  rq_method : string;
  rq_headers : list (string * string);
  rq_body : option string
}.

(** What [response.json()] gives: the decoded body, or the [SyntaxError]
    raised when the body is not JSON text. *)
Inductive decoded :=
| NotJson (msg : string)
| IsJson (j : JS.json).

(** The upstream reply: its status, its [Headers] (keyed by lower-case
    name) and its body. *)
Record reply := Reply {
  up_status : Z;
  up_headers : gmap string string;
  up_body : decoded
}.

(** [response.ok] *)
Definition ok (r : reply) : bool := (200 <=? up_status r) && (up_status r <=? 299).

(** [fetch] resolves with a reply or rejects with a [TypeError]. *)
Inductive fetch_result :=
| Replied (r : reply)
| Failed (msg : string).

(** The oracles: the [k]-th reading of [Date.now()], byte [i] of the
    [k]-th call of [crypto.getRandomValues], and the upstream's answer to
    the [k]-th outbound call. *)
Record Env := {
  clock : nat -> Z;
  entropy : nat -> nat -> N;
  upstream : nat -> fetch_request -> fetch_result
}.

(** The mutable world of one broker whose table holds sessions of type
    [S]. *)
Record World (S : Type) := mkWorld {
  table : gmap string S;
  ticks : nat;
  draws : nat;
  wire : list fetch_request
}.
Arguments mkWorld {S}.
Arguments table {S}.
Arguments ticks {S}.
Arguments draws {S}.
Arguments wire {S}.

(** A computation returns a value or throws; [Some msg] is an [Error]
    with that message, [None] any other thrown value. *)
Inductive outcome (A : Type) :=
| Ret (a : A)
| Throw (err : option string).
Arguments Ret {A}.
Arguments Throw {A}.

Definition M (S A : Type) : Type := Env -> World S -> outcome A * World S.

Definition ret {S A} (a : A) : M S A := fun _ w => (Ret a, w).

Definition bind {S A B} (m : M S A) (k : A -> M S B) : M S B :=
  fun e w =>
    match m e w with
    | (Ret a, w') => k a e w'
    | (Throw err, w') => (Throw err, w')
    end.

Definition throw {S A} (err : option string) : M S A := fun _ w => (Throw err, w).

(** [try { m } catch (error) { h error }]: what [m] did to the world
    before it threw stays done. *)
Definition try_catch {S A} (m : M S A) (h : option string -> M S A) : M S A :=
  fun e w =>
    match m e w with
    | (Ret a, w') => (Ret a, w')
    | (Throw err, w') => h err e w'
    end.

Notation "'do' x <- m ; k" := (bind m (fun x => k))
  (at level 10, x name, m at level 100, k at level 200, only parsing).

(** [Date.now()] *)
Definition Date_now {S} : M S Z :=
  fun e w => (Ret (clock e (ticks w)), mkWorld (table w) (Datatypes.S (ticks w)) (draws w) (wire w)).

(** The bytes that the [k]-th call of [crypto.getRandomValues] writes into
    a [Uint8Array] of length [n]. *)
Definition random_bytes (e : Env) (k n : nat) : list N :=
  (fun i => (entropy e k i mod 256)%N) <$> seq 0 n.

(** [crypto.getRandomValues(new Uint8Array(n))] *)
Definition getRandomValues {S} (n : nat) : M S (list N) :=
  fun e w =>
    (Ret (random_bytes e (draws w) n),
     mkWorld (table w) (ticks w) (Datatypes.S (draws w)) (wire w)).

(** [await fetch(...)]: the call goes on the wire; a rejection throws. *)
Definition fetch {S} (rq : fetch_request) : M S reply :=
  fun e w =>
    let w' := mkWorld (table w) (ticks w) (draws w) (wire w ++ [rq]) in
    match upstream e (length (wire w)) rq with
    | Replied r => (Ret r, w')
    | Failed msg => (Throw (Some msg), w')
    end.

(** [await response.json()] *)
Definition response_json {S} (r : reply) : M S JS.json :=
  match up_body r with
  | IsJson j => ret j
  | NotJson msg => throw (Some msg)
  end.

(** The [Map] operations on the session table. *)
Definition Map_get {S} (id : string) : M S (option S) :=
  fun _ w => (Ret (table w !! id), w).

Definition Map_set {S} (id : string) (s : S) : M S unit :=
  fun _ w => (Ret tt, mkWorld (<[id := s]> (table w)) (ticks w) (draws w) (wire w)).

Definition Map_delete {S} (id : string) : M S unit :=
  fun _ w => (Ret tt, mkWorld (delete id (table w)) (ticks w) (draws w) (wire w)).

Definition Map_update {S} (f : gmap string S -> gmap string S) : M S unit :=
  fun _ w => (Ret tt, mkWorld (f (table w)) (ticks w) (draws w) (wire w)).

(** [Array.from(array, byte => byte.toString(16).padStart(2, '0')).join('')] *)
Definition hex (array : list N) : string :=
  JS.join ((fun byte => JS.padStart2 (JS.toString16 byte)) <$> array).

(** [generateSessionId]: 32 random bytes, each printed as two hex digits. *)
Definition generateSessionId {S} : M S string :=
  do array <- getRandomValues 32 ;
  ret (hex array).

(** The identifier that [generateSessionId] returns at the [k]-th draw. *)
Definition minted (e : Env) (k : nat) : string := hex (random_bytes e k 32).

(** The characters a minted identifier is made of. *)
Definition hex_chars : list ascii := list_ascii_of_string "0123456789abcdef".

(** *** Responses *)

Record Response := {
  status : Z;
  headers : list (string * string);
  body : option string
}.

Definition corsHeaders : list (string * string) :=
  [ ("Access-Control-Allow-Origin", "*");
    ("Access-Control-Allow-Headers", "authorization, x-client-info, apikey, content-type") ].

(** [new Response(JSON.stringify(j), { status, headers: { ...corsHeaders,
    'Content-Type': 'application/json' } })] *)
Definition json_response (st : Z) (j : JS.json) : Response :=
  {| status := st;
     headers := corsHeaders ++ [("Content-Type", "application/json")];
     body := Some (JS.JSON_stringify j) |}.

(** [new Response(null, { headers: corsHeaders })] *)
Definition preflight_response : Response :=
  {| status := 200; headers := corsHeaders; body := None |}.

(** [{ error: msg }] *)
Definition error_body (msg : string) : JS.json := JS.JObj [("error", JS.JStr msg)].

(** The [catch] clause shared by both handlers. *)
Definition internal_error {S} (err : option string) : M S Response :=
  ret (json_response 500 (error_body (match err with Some m => m | None => "Unknown error" end))).

(** *** Requests *)

(** [await req.json()] followed by the destructuring either throws or
    yields the fields. *)
Inductive payload (F : Type) :=
| BadJson (msg : string)
| Json (fields : F).
Arguments BadJson {F}.
Arguments Json {F}.

Record Request (F : Type) := {
  http_method : string;
  content : payload F
}.
Arguments http_method {F}.
Arguments content {F}.

(** A [POST] whose body decodes to the fields [f]. *)
Definition POST {F} (f : F) : Request F :=
  {| http_method := "POST"; content := Json f |}.

Definition req_json {S F} (req : Request F) : M S F :=
  match content req with
  | Json f => ret f
  | BadJson msg => throw (Some msg)
  end.

(** A field that passes the [!field] guard, as the string it then is. *)
Definition given (s : option string) : option string :=
  if JS.truthy s then s else None.

Definition strings (l : list string) : JS.json := JS.JArr (JS.JStr <$> l).

(** A clock that never runs backwards. *)
Definition monotone (e : Env) : Prop :=
  forall i j : nat, (i <= j)%nat -> clock e i <= clock e j.

(** The world a broker starts in. *)
Definition boot {S} : World S := mkWorld ∅ 0 0 [].

End Runtime.

(** ** The LLM key vault ([src/unnamed/part_000]) *)

Module LlmProxy.
Import JS Runtime.

(** An entry of [apiKeySessions]. *)
Record session := Session {
  keys : JS.object;
  createdAt : Z
}.

(** The fields the handler destructures from the request. *)
Record fields := Fields {
  action : option string;
  sessionId : option string;
  provider : option string;
  apiKey : option string
}.

(** The time to live in milliseconds, and the lifetime hint in seconds. *)
Definition TTL : Z := 86400000.
Definition EXPIRES_IN : Z := 86400.

(** [cleanupSessions]: visit every entry and delete the ones older than
    24 hours. *)
Definition sweep (now : Z) (t : gmap string session) : gmap string session :=
  map_fold
    (fun sessionId data acc =>
       if now - createdAt data >? TTL then delete sessionId acc else acc)
    t t.

Definition cleanupSessions : M session unit :=
  do now <- Date_now ;
  Map_update (sweep now).

Definition get_session (f : fields) : M session Response :=
  do found <-
    (match given (sessionId f) with
     | Some id => do s <- Map_get id ; ret (pair id <$> s)
     | None => ret None
     end) ;
  match found with
  | None =>
      do newSessionId <- generateSessionId ;
      do now <- Date_now ;
      let session := Session [] now in
      do _ <- Map_set newSessionId session ;
      ret (json_response 200
             (JObj [ ("sessionId", JStr newSessionId);
                     ("providers", strings (Object_keys (keys session)));
                     ("expiresIn", JNum EXPIRES_IN) ]))
  | Some (id, session) =>
      do now <- Date_now ;
      ret (json_response 200
             (JObj [ ("sessionId", JStr id);
                     ("providers", strings (Object_keys (keys session)));
                     ("expiresIn",
                      JNum (Z.max 0 (EXPIRES_IN - (now - createdAt session) / 1000))) ]))
  end.

Definition set_key (f : fields) : M session Response :=
  match given (sessionId f), given (provider f), given (apiKey f) with
  | Some id, Some p, Some k =>
      do found <- Map_get id ;
      do session <-
        (match found with
         | Some s => ret s
         | None =>
             do now <- Date_now ;
             let s := Session [] now in
             do _ <- Map_set id s ;
             ret s
         end) ;
      let session := Session (obj_set (keys session) p k) (createdAt session) in
      do _ <- Map_set id session ;
      ret (json_response 200
             (JObj [ ("success", JBool true);
                     ("providers", strings (Object_keys (keys session))) ]))
  | _, _, _ =>
      ret (json_response 400 (error_body "Session ID, provider, and API key are required"))
  end.

Definition remove_key (f : fields) : M session Response :=
  match given (sessionId f), given (provider f) with
  | Some id, Some p =>
      do found <- Map_get id ;
      match found with
      | Some s =>
          let session := Session (obj_delete (keys s) p) (createdAt s) in
          do _ <- Map_set id session ;
          ret (json_response 200
                 (JObj [ ("success", JBool true);
                         ("providers", strings (Object_keys (keys session))) ]))
      | None =>
          ret (json_response 200
                 (JObj [ ("success", JBool true); ("providers", strings []) ]))
      end
  | _, _ =>
      ret (json_response 400 (error_body "Session ID and provider are required"))
  end.

Definition check_key (f : fields) : M session Response :=
  match given (sessionId f), given (provider f) with
  | Some id, Some p =>
      do found <- Map_get id ;
      let hasKey :=
        match found with
        | Some session => value_truthy (obj_get (keys session) p)
        | None => false
        end in
      ret (json_response 200 (JObj [ ("hasKey", JBool hasKey) ]))
  | _, _ =>
      ret (json_response 400 (error_body "Session ID and provider are required"))
  end.

Definition destroy_session (f : fields) : M session Response :=
  do _ <-
    (match given (sessionId f) with
     | Some id => Map_delete id
     | None => ret tt
     end) ;
  ret (json_response 200 (JObj [ ("success", JBool true) ])).

(** The chain of [if (action === ...)] tests. *)
Definition dispatch (f : fields) : M session Response :=
  if bool_decide (action f = Some "get_session") then get_session f
  else if bool_decide (action f = Some "set_key") then set_key f
  else if bool_decide (action f = Some "remove_key") then remove_key f
  else if bool_decide (action f = Some "check_key") then check_key f
  else if bool_decide (action f = Some "destroy_session") then destroy_session f
  else ret (json_response 400 (error_body "Invalid action")).

(** The handler passed to [serve]. *)
Definition serve (req : Request fields) : M session Response :=
  if bool_decide (http_method req = "OPTIONS") then ret preflight_response
  else
    try_catch
      (do _ <- cleanupSessions ;
       do f <- req_json req ;
       dispatch f)
      internal_error.

(** The worlds the vault can be in: the one it boots in, and those it
    reaches by handling a request. *)
Inductive reachable (e : Env) : World session -> Prop :=
| reach_boot : reachable e boot
| reach_serve (w : World session) (req : Request fields) :
    reachable e w -> reachable e (serve req e w).2.

(** Every session was created at an earlier reading of the clock. *)
Definition timely (e : Env) (n : nat) (t : gmap string session) : Prop :=
  forall id s, t !! id = Some s -> exists k : nat, (k < n)%nat /\ createdAt s = clock e k.

End LlmProxy.

(** ** The GitHub proxy ([src/unnamed/part_001]) *)

Module GithubProxy.
Import JS Runtime.

(** An entry of [sessions]. *)
Record session := Session {
  token : string;
  tokenType : string;
  createdAt : Z
}.

(** The fields the handler destructures from the request. *)
Record fields := Fields {
  action : option string;
  f_token : option string;
  f_tokenType : option string;
  sessionId : option string;
  endpoint : option string;
  method : option string;
  f_body : option json
}.

Definition TTL : Z := 3600000.
Definition EXPIRES_IN : Z := 3600.

(** The fixed upstream. *)
Definition API_BASE : string := "https://api.github.com".

(** [cleanupSessions]: visit every entry and delete the ones older than
    one hour. *)
Definition sweep (now : Z) (t : gmap string session) : gmap string session :=
  map_fold
    (fun sessionId data acc =>
       if now - createdAt data >? TTL then delete sessionId acc else acc)
    t t.

Definition cleanupSessions : M session unit :=
  do now <- Date_now ;
  Map_update (sweep now).

(** The headers every outbound call carries. *)
Definition auth_headers (tok : string) : list (string * string) :=
  [ ("Authorization", "Bearer " +:+ tok);
    ("Accept", "application/vnd.github.v3+json");
    ("User-Agent", "Lovable-App") ].

(** The call that verifies a token. *)
Definition verify_request (tok : string) : fetch_request :=
  FetchRequest (API_BASE +:+ "/user") "GET" (auth_headers tok) None.

(** Reading [userData.login] throws when [userData] is [null]. *)
Definition read_login (userData : json) : M session unit :=
  match userData with
  | JNull => throw (Some "Cannot read properties of null (reading 'login')")
  | _ => ret tt
  end.

(** The [create_session] action.  In the rejected branch the error text
    of the upstream is read and logged only; in the accepted branch the log
    line reads [userData.login] after the session has been stored. *)
Definition create_session (f : fields) : M session Response :=
  match given (f_token f) with
  | None => ret (json_response 400 (error_body "Token is required"))
  | Some tok =>
      do verifyResponse <- fetch (verify_request tok) ;
      if negb (ok verifyResponse) then
        ret (json_response 401 (error_body "Invalid GitHub token"))
      else
        do userData <- response_json verifyResponse ;
        do newSessionId <- generateSessionId ;
        do now <- Date_now ;
        do _ <- Map_set newSessionId
                  (Session tok (or_default (f_tokenType f) "classic") now) ;
        do _ <- read_login userData ;
        ret (json_response 200
               (JObj [ ("sessionId", JStr newSessionId);
                       ("user", userData);
                       ("expiresIn", JNum EXPIRES_IN) ]))
  end.

Definition destroy_session (f : fields) : M session Response :=
  do _ <-
    (match given (sessionId f) with
     | Some id => Map_delete id
     | None => ret tt
     end) ;
  ret (json_response 200 (JObj [ ("success", JBool true) ])).

(** The URL a proxied call goes to. *)
Definition fullUrl (endpoint : string) : string :=
  if startsWith endpoint "https://" then endpoint
  else API_BASE +:+ (if startsWith endpoint "/" then endpoint else "/" +:+ endpoint).

(** The outbound call of [proxy]. *)
Definition proxy_request (s : session) (endpoint : string) (f : fields) : fetch_request :=
  FetchRequest
    (fullUrl endpoint)
    (or_default (method f) "GET")
    (auth_headers (token s) ++
     (if json_truthy (f_body f) then [("Content-Type", "application/json")] else []))
    (if json_truthy (f_body f) then JSON_stringify <$> f_body f else None).

(** [await proxyResponse.json().catch(() => ({}))] *)
Definition json_or_empty (r : reply) : json :=
  match up_body r with
  | IsJson j => j
  | NotJson _ => JObj []
  end.

Definition rateLimit (r : reply) : json :=
  JObj [ ("limit", nullable (up_headers r !! "x-ratelimit-limit"));
         ("remaining", nullable (up_headers r !! "x-ratelimit-remaining"));
         ("reset", nullable (up_headers r !! "x-ratelimit-reset")) ].

Definition proxy (f : fields) : M session Response :=
  match given (sessionId f) with
  | None => ret (json_response 401 (error_body "Session ID is required"))
  | Some id =>
      do found <- Map_get id ;
      match found with
      | None => ret (json_response 401 (error_body "Invalid or expired session"))
      | Some session =>
          match given (endpoint f) with
          | None => ret (json_response 400 (error_body "Endpoint is required"))
          | Some ep =>
              do proxyResponse <- fetch (proxy_request session ep f) ;
              let responseData := json_or_empty proxyResponse in
              ret (json_response
                     (if ok proxyResponse then 200 else up_status proxyResponse)
                     (JObj [ ("data", responseData);
                             ("status", JNum (up_status proxyResponse));
                             ("rateLimit", rateLimit proxyResponse) ]))
          end
      end
  end.

(** The chain of [if (action === ...)] tests. *)
Definition dispatch (f : fields) : M session Response :=
  if bool_decide (action f = Some "create_session") then create_session f
  else if bool_decide (action f = Some "destroy_session") then destroy_session f
  else if bool_decide (action f = Some "proxy") then proxy f
  else ret (json_response 400 (error_body "Invalid action")).

(** The handler passed to [serve]. *)
Definition serve (req : Request fields) : M session Response :=
  if bool_decide (http_method req = "OPTIONS") then ret preflight_response
  else
    try_catch
      (do _ <- cleanupSessions ;
       do f <- req_json req ;
       dispatch f)
      internal_error.

(** The host part of an absolute [https] URL: what stands between the
    scheme and the first [/], [?] or [#], without user information and
    port. *)
Fixpoint until_any (stops : list ascii) (s : string) : string :=
  match s with
  | EmptyString => EmptyString
  | String c r => if bool_decide (c ∈ stops) then EmptyString else String c (until_any stops r)
  end.

Fixpoint after_last (stop : ascii) (s : string) : string :=
  match s with
  | EmptyString => EmptyString
  | String c r =>
      if includes r (String stop EmptyString) then after_last stop r
      else if bool_decide (c = stop) then r
      else String c r
  end.

Definition url_host (u : string) : string :=
  let authority := until_any ["/"; "?"; "#"]%char (String.substring 8 (String.length u - 8) u) in
  until_any [":"%char] (after_last "@" authority).

End GithubProxy.

(** ** What a caller cannot tell apart

    Two tables, requests or outbound calls are alike when they differ at
    most in the secrets they hold: the values of stored keys, stored tokens,
    the submitted [apiKey] or [token], and the value of the [Authorization]
    header.  Whether a key or token is empty is not secret. *)

Module Secrecy.
Import JS Runtime.

Definition keys_alike (o1 o2 : object) : Prop :=
  Forall2 (fun a b => a.1 = b.1 /\ truthy (Some a.2) = truthy (Some b.2)) o1 o2.

Definition vault_sessions_alike (s1 s2 : LlmProxy.session) : Prop :=
  keys_alike (LlmProxy.keys s1) (LlmProxy.keys s2) /\
  LlmProxy.createdAt s1 = LlmProxy.createdAt s2.

Definition github_sessions_alike (s1 s2 : GithubProxy.session) : Prop :=
  GithubProxy.tokenType s1 = GithubProxy.tokenType s2 /\
  GithubProxy.createdAt s1 = GithubProxy.createdAt s2.

Definition tables_alike {S} (R : S -> S -> Prop) (t1 t2 : gmap string S) : Prop :=
  forall id, option_Forall2 R (t1 !! id) (t2 !! id).

Definition calls_alike (rq1 rq2 : fetch_request) : Prop :=
  rq_url rq1 = rq_url rq2 /\
  rq_method rq1 = rq_method rq2 /\
  rq_body rq1 = rq_body rq2 /\
  Forall2 (fun h1 h2 => h1.1 = h2.1 /\ (h1.1 <> "Authorization" -> h1.2 = h2.2))
    (rq_headers rq1) (rq_headers rq2).

Definition worlds_alike {S} (R : S -> S -> Prop) (w1 w2 : World S) : Prop :=
  tables_alike R (table w1) (table w2) /\
  ticks w1 = ticks w2 /\
  draws w1 = draws w2 /\
  Forall2 calls_alike (wire w1) (wire w2).

Definition vault_fields_alike (f1 f2 : LlmProxy.fields) : Prop :=
  LlmProxy.action f1 = LlmProxy.action f2 /\
  LlmProxy.sessionId f1 = LlmProxy.sessionId f2 /\
  LlmProxy.provider f1 = LlmProxy.provider f2 /\
  truthy (LlmProxy.apiKey f1) = truthy (LlmProxy.apiKey f2).

Definition github_fields_alike (f1 f2 : GithubProxy.fields) : Prop :=
  GithubProxy.action f1 = GithubProxy.action f2 /\
  truthy (GithubProxy.f_token f1) = truthy (GithubProxy.f_token f2) /\
  GithubProxy.f_tokenType f1 = GithubProxy.f_tokenType f2 /\
  GithubProxy.sessionId f1 = GithubProxy.sessionId f2 /\
  GithubProxy.endpoint f1 = GithubProxy.endpoint f2 /\
  GithubProxy.method f1 = GithubProxy.method f2 /\
  GithubProxy.f_body f1 = GithubProxy.f_body f2.

Definition requests_alike {F} (R : F -> F -> Prop) (r1 r2 : Request F) : Prop :=
  http_method r1 = http_method r2 /\
  match content r1, content r2 with
  | BadJson m1, BadJson m2 => m1 = m2
  | Json f1, Json f2 => R f1 f2
  | _, _ => False
  end.

(** Two environments with the same clock and the same random source. *)
Definition sources_alike (e1 e2 : Env) : Prop :=
  (forall k, clock e1 k = clock e2 k) /\
  (forall k i, entropy e1 k i = entropy e2 k i).

(** The upstream call that takes the first world [w1] to [w1'], if there
    is one, is answered as the call that takes the second world [w2] to
    [w2']. *)
Definition answered_alike {S} (e1 e2 : Env) (w1 w1' w2 w2' : World S) : Prop :=
  forall rq1 rq2,
    wire w1' = wire w1 ++ [rq1] -> wire w2' = wire w2 ++ [rq2] ->
    upstream e1 (length (wire w1)) rq1 = upstream e2 (length (wire w2)) rq2.

End Secrecy.

(** ** Concrete environments, for checking the statements on examples *)

Module Demo.
Import JS Runtime.

(** A stand-in for the upstream: it knows one token, [ghp_valid]; with it,
    [/user] yields a profile, [/missing] yields 404, anything else an empty
    body; without it, every call yields 401. *)
Definition rate_headers : gmap string string :=
  {[ "x-ratelimit-limit" := "5000"; "x-ratelimit-remaining" := "4999" ]}.

Definition github (rq : fetch_request) : fetch_result :=
  if bool_decide (("Authorization", "Bearer ghp_valid") ∈ rq_headers rq) then
    if bool_decide (rq_url rq = "https://api.github.com/user") then
      Replied (Reply 200 rate_headers (IsJson (JObj [("login", JStr "octocat")])))
    else if bool_decide (rq_url rq = "https://api.github.com/missing") then
      Replied (Reply 404 rate_headers (IsJson (JObj [("message", JStr "Not Found")])))
    else Replied (Reply 204 rate_headers (NotJson "Unexpected end of JSON input"))
  else Replied (Reply 401 ∅ (IsJson (JObj [("message", JStr "Bad credentials")]))).

(** A clock that advances half a second per reading, a fixed byte source,
    and the upstream [github]. *)
Definition env : Env :=
  {| clock := fun k => 1700000000000 + 500 * Z.of_nat k;
     entropy := fun k i => N.of_nat (17 * k + 3 * i);
     upstream := fun _ rq => github rq |}.

(** The same environment with the clock stopped at [now]. *)
Definition at_time (now : Z) : Env :=
  {| clock := fun _ => now; entropy := entropy env; upstream := upstream env |}.

(** An upstream that answers every call with [200] and the body [null]. *)
Definition null_env : Env :=
  {| clock := clock env; entropy := entropy env;
     upstream := fun _ _ => Replied (Reply 200 ∅ (IsJson JNull)) |}.

(** A host that answers with the headers it was sent, as a JSON object. *)
Definition echo (rq : fetch_request) : fetch_result :=
  Replied (Reply 200 ∅ (IsJson (JObj (prod_map id JStr <$> rq_headers rq)))).

Definition echo_env : Env :=
  {| clock := clock env; entropy := entropy env; upstream := fun _ rq => echo rq |}.

End Demo.

(** ** Well-formed tables, and decoding identifiers *)

Module Invariants.
Import JS Runtime.

(** The worlds the GitHub proxy can be in. *)
Inductive github_reachable (e : Env) : World GithubProxy.session -> Prop :=
| github_boot : github_reachable e boot
| github_serve (w : World GithubProxy.session) (req : Request GithubProxy.fields) :
    github_reachable e w -> github_reachable e (GithubProxy.serve req e w).2.

(** The shape of an identifier made by [generateSessionId]. *)
Definition minted_shape (id : string) : Prop :=
  String.length id = 64%nat /\ Forall (fun c => c ∈ hex_chars) (list_ascii_of_string id).

(** A vault table whose session ids, provider names and key values are
    all non-empty, and whose key objects hold each name once. *)
Definition vault_session_ok (s : LlmProxy.session) : Prop :=
  NoDup (LlmProxy.keys s).*1 /\
  Forall (fun kv => kv.1 <> EmptyString /\ kv.2 <> EmptyString) (LlmProxy.keys s).

Definition vault_table_ok (t : gmap string LlmProxy.session) : Prop :=
  forall id s, t !! id = Some s -> id <> EmptyString /\ vault_session_ok s.

(** A GitHub table whose ids are all minted and whose tokens and token
    types are non-empty. *)
Definition github_table_ok (t : gmap string GithubProxy.session) : Prop :=
  forall id s, t !! id = Some s ->
    minted_shape id /\
    GithubProxy.token s <> EmptyString /\ GithubProxy.tokenType s <> EmptyString.

(** The value of a hexadecimal digit, and the bytes a string of digit
    pairs spells. *)
Definition hexval (c : ascii) : option N :=
  (fun p => N.of_nat p.1) <$> list_find (fun x => x = c) hex_chars.

Fixpoint unhex (s : string) : option (list N) :=
  match s with
  | EmptyString => Some []
  | String _ EmptyString => None
  | String a (String b r) =>
      match hexval a, hexval b, unhex r with
      | Some hi, Some lo, Some rest => Some ((16 * hi + lo)%N :: rest)
      | _, _, _ => None
      end
  end.

End Invariants.

(** ** Where the stored tokens come from *)

Module Provenance.
Import JS Runtime.

(** Every token in the table is one that the upstream accepted in an
    earlier verification call. *)
Definition tokens_verified (e : Env) (w : World GithubProxy.session) : Prop :=
  forall id s, table w !! id = Some s ->
    exists (k : nat) (r : reply),
      wire w !! k = Some (GithubProxy.verify_request (GithubProxy.token s)) /\
      upstream e k (GithubProxy.verify_request (GithubProxy.token s)) = Replied r /\
      ok r = true.

End Provenance.

(** * Facts about the JavaScript values *)

Section js_facts.
Import JS Runtime.

Lemma given_Some (v : string) : v <> EmptyString -> Runtime.given (Some v) = Some v.
Proof. destruct v; [congruence | done]. Qed.

Lemma given_None (s : option string) :
  Runtime.given s = None <-> s = None \/ s = Some EmptyString.
Proof.
  unfold Runtime.given. destruct s as [[|c r]|]; simpl; split; intros; try done.
  - by right.
  - naive_solver.
  - by left.
Qed.

Lemma own_obj_set_eq (o : object) (k v : string) : own (obj_set o k v) k = Some v.
Proof.
  unfold own. induction o as [|[k' v'] r IH]; simpl.
  - by rewrite bool_decide_eq_true_2.
  - destruct (decide (k' = k)) as [->|Hne]; simpl.
    + by rewrite bool_decide_eq_true_2.
    + by rewrite bool_decide_eq_false_2.
Qed.

Lemma own_obj_set_ne (o : object) (k k' v : string) :
  k <> k' -> own (obj_set o k v) k' = own o k'.
Proof.
  intros Hne. unfold own. induction o as [|[k1 v1] r IH]; simpl.
  - by rewrite bool_decide_eq_false_2.
  - destruct (decide (k1 = k)) as [->|Hne1]; simpl.
    + by rewrite !bool_decide_eq_false_2.
    + destruct (bool_decide (k1 = k')); [done | apply IH].
Qed.

Lemma own_obj_delete_eq (o : object) (k : string) : own (obj_delete o k) k = None.
Proof.
  unfold own, obj_delete. induction o as [|[k1 v1] r IH]; simpl; [done|].
  destruct (decide (k1 = k)) as [->|Hne].
  - rewrite bool_decide_eq_true_2 by done. simpl. apply IH.
  - rewrite (bool_decide_eq_false_2 (k1 = k)) by done. simpl.
    rewrite bool_decide_eq_false_2 by done. apply IH.
Qed.

Lemma own_obj_delete_ne (o : object) (k k' : string) :
  k <> k' -> own (obj_delete o k) k' = own o k'.
Proof.
  intros Hne. unfold own, obj_delete. induction o as [|[k1 v1] r IH]; simpl; [done|].
  destruct (decide (k1 = k)) as [->|Hne1].
  - rewrite bool_decide_eq_true_2 by done. simpl.
    rewrite bool_decide_eq_false_2 by done. apply IH.
  - rewrite (bool_decide_eq_false_2 (k1 = k)) by done. simpl.
    destruct (bool_decide (k1 = k')); [done | apply IH].
Qed.

(** A property read finds an own string, or falls back on the prototype. *)
Lemma obj_get_truthy (o : object) (k : string) :
  value_truthy (obj_get o k) =
  match own o k with
  | Some v => truthy (Some v)
  | None => bool_decide (k ∈ Object_prototype)
  end.
Proof. unfold obj_get. destruct (own o k); [done|]. by destruct (bool_decide _). Qed.

Lemma Object_keys_singleton (k v : string) : Object_keys [(k, v)] = [k].
Proof.
  unfold Object_keys. simpl. by destruct (array_index k).
Qed.

(** [Object.keys] lists exactly the own property names. *)
Lemma insert_sorted_elem (x y : N * string) (l : list (N * string)) :
  y ∈ insert_sorted x l <-> y = x \/ y ∈ l.
Proof.
  induction l as [|z r IH]; simpl.
  - set_solver.
  - destruct (x.1 <? z.1)%N; [set_solver|].
    rewrite !elem_of_cons, IH. tauto.
Qed.

Lemma Object_keys_elem (o : object) (k : string) :
  k ∈ Object_keys o <-> is_Some (own o k).
Proof.
  assert (Hown : is_Some (own o k) <-> k ∈ (fst <$> o)).
  { unfold own. induction o as [|[k1 v1] r IH]; simpl.
    - split; [intros [? ?]; done | intros H; inversion H].
    - destruct (decide (k1 = k)) as [->|Hne].
      + rewrite bool_decide_eq_true_2 by done. simpl. split; [set_solver | eauto].
      + rewrite bool_decide_eq_false_2 by done. rewrite IH. set_solver. }
  rewrite Hown. unfold Object_keys. set (names := fst <$> o). clearbody names.
  rewrite elem_of_app. split.
  - intros [H|H].
    + apply list_elem_of_fmap in H as ([n k'] & -> & H). simpl.
      assert (Hin : forall l, (n, k') ∈ foldr insert_sorted [] l -> (n, k') ∈ l).
      { induction l as [|a l IH]; simpl; [done|].
        rewrite insert_sorted_elem. set_solver. }
      apply Hin in H. apply list_elem_of_omap in H as (k0 & Hk0 & Hf).
      destruct (array_index k0); simpl in Hf; [|done]. by inversion Hf; subst.
    + apply list_elem_of_In, filter_In in H as [H _]. by apply list_elem_of_In.
  - intros Hk. destruct (array_index k) as [n|] eqn:E.
    + left. apply list_elem_of_fmap. exists (n, k). split; [done|].
      assert (Hin : forall l, (n, k) ∈ l -> (n, k) ∈ foldr insert_sorted [] l).
      { induction l as [|a l IH]; simpl; [done|].
        rewrite insert_sorted_elem. set_solver. }
      apply Hin. apply list_elem_of_omap. exists k. split; [done|]. by rewrite E.
    + right. apply list_elem_of_In, filter_In. split; [by apply list_elem_of_In|].
      by rewrite bool_decide_eq_true_2.
Qed.

Lemma hexdigit_hex (d : N) : hexdigit d ∈ hex_chars.
Proof.
  destruct d as [|p]; [by refine (bool_decide_unpack _ _)|].
  do 4 (destruct p as [p|p|]; try by refine (bool_decide_unpack _ _)).
Qed.

Lemma byte_hex_length (b : N) : String.length (padStart2 (toString16 b)) = 2%nat.
Proof. unfold toString16. by destruct (b <? 16)%N. Qed.

Lemma byte_hex_chars (b : N) :
  Forall (fun c => c ∈ hex_chars) (list_ascii_of_string (padStart2 (toString16 b))).
Proof.
  unfold toString16. destruct (b <? 16)%N eqn:E; simpl.
  - apply Forall_cons; split; [by refine (bool_decide_unpack _ _)|].
    apply Forall_cons; split; [apply hexdigit_hex | constructor].
  - apply Forall_cons; split; [apply hexdigit_hex|].
    apply Forall_cons; split; [apply hexdigit_hex | constructor].
Qed.

Lemma string_length_app (a b : string) :
  String.length (a +:+ b) = (String.length a + String.length b)%nat.
Proof. induction a as [|c a IH]; simpl; [done | by rewrite IH]. Qed.

Lemma string_chars_app (a b : string) :
  list_ascii_of_string (a +:+ b) = (list_ascii_of_string a ++ list_ascii_of_string b)%list.
Proof. induction a as [|c a IH]; simpl; [done | by rewrite IH]. Qed.

Lemma hex_length (l : list N) : String.length (hex l) = (2 * length l)%nat.
Proof.
  induction l as [|b l IH]; [done|].
  change (hex (b :: l)) with (padStart2 (toString16 b) +:+ hex l).
  rewrite string_length_app, byte_hex_length, IH. simpl. lia.
Qed.

Lemma hex_chars_only (l : list N) :
  Forall (fun c => c ∈ hex_chars) (list_ascii_of_string (hex l)).
Proof.
  induction l as [|b l IH]; [constructor|].
  change (hex (b :: l)) with (padStart2 (toString16 b) +:+ hex l).
  rewrite string_chars_app. apply Forall_app. split; [apply byte_hex_chars | apply IH].
Qed.

Lemma minted_length (e : Env) (k : nat) : String.length (minted e k) = 64%nat.
Proof. unfold minted. rewrite hex_length. unfold random_bytes. by rewrite length_fmap, length_seq. Qed.
End js_facts.

(** * The expiry sweep *)

Section sweep_fold.
Context {S : Type} (dead : S -> bool).

(** The loop of [cleanupSessions], started on the table [b] and visiting
    the entries of [m]: an entry survives exactly when it is not dead. *)
Lemma sweep_fold_lookup (b m : gmap string S) (id : string) :
  map_fold (fun i x acc => if dead x then delete i acc else acc) b m !! id =
  match m !! id with
  | Some x => if dead x then None else b !! id
  | None => b !! id
  end.
Proof.
  revert id.
  apply (map_fold_weak_ind
           (fun r m => forall id, r !! id =
              match m !! id with
              | Some x => if dead x then None else b !! id
              | None => b !! id
              end)).
  - intros id. by rewrite lookup_empty.
  - intros i x m' r Hfresh IH id.
    destruct (decide (i = id)) as [->|Hne].
    + rewrite lookup_insert_eq. destruct (dead x).
      * by rewrite lookup_delete_eq.
      * rewrite IH, Hfresh. done.
    + rewrite lookup_insert_ne by done. destruct (dead x).
      * rewrite lookup_delete_ne by done. apply IH.
      * apply IH.
Qed.

End sweep_fold.

(** * The key vault *)

Section llm_facts.
Import JS Runtime LlmProxy.

Lemma llm_sweep_lookup (now : Z) (t : gmap string session) (id : string) :
  sweep now t !! id =
  match t !! id with
  | Some s => if now - createdAt s >? 86400000 then None else Some s
  | None => None
  end.
Proof.
  unfold sweep.
  rewrite (sweep_fold_lookup (fun s => now - createdAt s >? TTL)).
  by destruct (t !! id).
Qed.

Lemma llm_sweep_Some (now : Z) (t : gmap string session) (id : string) (s : session) :
  sweep now t !! id = Some s <-> t !! id = Some s /\ now - createdAt s <= 86400000.
Proof.
  rewrite llm_sweep_lookup. destruct (t !! id) as [s'|]; [|naive_solver].
  destruct (Z.gtb_spec (now - createdAt s') 86400000); split.
  - done.
  - intros [[= ->] ?]. lia.
  - intros [= ->]. split; [done | lia].
  - by intros [[= ->] ?].
Qed.

(** A [POST] runs the sweep, then the action. *)
Lemma llm_serve_post (f : fields) (e : Env) (w : World session) :
  serve (POST f) e w =
  try_catch (dispatch f) internal_error e
    (mkWorld (sweep (clock e (ticks w)) (table w)) (S (ticks w)) (draws w) (wire w)).
Proof. reflexivity. Qed.

Ltac run_llm :=
  rewrite llm_serve_post;
  unfold try_catch, dispatch; simpl;
  unfold get_session, set_key, remove_key, check_key, destroy_session,
    bind, ret, Map_get, Map_set, Map_delete, Date_now, generateSessionId,
    getRandomValues; simpl.

Local Abbreviation swept e w := (sweep (clock e (ticks w)) (table w)).

Lemma llm_get_session_fresh sid p k e w :
  (given sid = None \/ exists id, given sid = Some id /\ swept e w !! id = None) ->
  serve (POST (Fields (Some "get_session") sid p k)) e w =
  (Ret (json_response 200
          (JObj [ ("sessionId", JStr (minted e (draws w)));
                  ("providers", JArr []);
                  ("expiresIn", JNum 86400) ])),
   mkWorld (<[minted e (draws w) := Session [] (clock e (S (ticks w)))]> (swept e w))
           (S (S (ticks w))) (S (draws w)) (wire w)).
Proof.
  intros H. run_llm.
  destruct H as [->|(id & -> & Hid)]; simpl.
  - reflexivity.
  - rewrite Hid. reflexivity.
Qed.

Lemma llm_get_session_live sid p k e w id s :
  given sid = Some id -> swept e w !! id = Some s ->
  serve (POST (Fields (Some "get_session") sid p k)) e w =
  (Ret (json_response 200
          (JObj [ ("sessionId", JStr id);
                  ("providers", strings (Object_keys (keys s)));
                  ("expiresIn",
                   JNum (Z.max 0 (86400 - (clock e (S (ticks w)) - createdAt s) / 1000))) ])),
   mkWorld (swept e w) (S (S (ticks w))) (draws w) (wire w)).
Proof.
  intros Hsid Hid. run_llm. rewrite Hsid. simpl. rewrite Hid. reflexivity.
Qed.

Lemma llm_set_key_known a id p k s e w :
  given a = Some id -> p <> EmptyString -> k <> EmptyString ->
  swept e w !! id = Some s ->
  serve (POST (Fields (Some "set_key") a (Some p) (Some k))) e w =
  (Ret (json_response 200
          (JObj [ ("success", JBool true);
                  ("providers", strings (Object_keys (obj_set (keys s) p k))) ])),
   mkWorld (<[id := Session (obj_set (keys s) p k) (createdAt s)]> (swept e w))
           (S (ticks w)) (draws w) (wire w)).
Proof.
  intros Ha Hp Hk Hs. run_llm.
  rewrite Ha, (given_Some p), (given_Some k) by done. simpl. rewrite Hs. reflexivity.
Qed.

Lemma llm_set_key_unknown a id p k e w :
  given a = Some id -> p <> EmptyString -> k <> EmptyString ->
  swept e w !! id = None ->
  serve (POST (Fields (Some "set_key") a (Some p) (Some k))) e w =
  (Ret (json_response 200
          (JObj [ ("success", JBool true); ("providers", strings [p]) ])),
   mkWorld (<[id := Session [(p, k)] (clock e (S (ticks w)))]> (swept e w))
           (S (S (ticks w))) (draws w) (wire w)).
Proof.
  intros Ha Hp Hk Hs. run_llm.
  rewrite Ha, (given_Some p), (given_Some k) by done. simpl. rewrite Hs. simpl.
  rewrite insert_insert_eq. destruct (decide (p = p)); [|done].
  by rewrite Object_keys_singleton.
Qed.

Lemma llm_set_key_invalid a p k e w :
  given a = None \/ given p = None \/ given k = None ->
  serve (POST (Fields (Some "set_key") a p k)) e w =
  (Ret (json_response 400 (error_body "Session ID, provider, and API key are required")),
   mkWorld (swept e w) (S (ticks w)) (draws w) (wire w)).
Proof.
  intros H. run_llm.
  destruct (given a); [|done]. destruct (given p); [|done]. destruct (given k); [|done].
  naive_solver.
Qed.

Lemma llm_remove_key_known a id p s e w :
  given a = Some id -> p <> EmptyString -> swept e w !! id = Some s ->
  forall k,
  serve (POST (Fields (Some "remove_key") a (Some p) k)) e w =
  (Ret (json_response 200
          (JObj [ ("success", JBool true);
                  ("providers", strings (Object_keys (obj_delete (keys s) p))) ])),
   mkWorld (<[id := Session (obj_delete (keys s) p) (createdAt s)]> (swept e w))
           (S (ticks w)) (draws w) (wire w)).
Proof.
  intros Ha Hp Hs k. run_llm.
  rewrite Ha, (given_Some p) by done. simpl. rewrite Hs. reflexivity.
Qed.

Lemma llm_remove_key_unknown a id p e w :
  given a = Some id -> p <> EmptyString -> swept e w !! id = None ->
  forall k,
  serve (POST (Fields (Some "remove_key") a (Some p) k)) e w =
  (Ret (json_response 200 (JObj [ ("success", JBool true); ("providers", JArr []) ])),
   mkWorld (swept e w) (S (ticks w)) (draws w) (wire w)).
Proof.
  intros Ha Hp Hs k. run_llm.
  rewrite Ha, (given_Some p) by done. simpl. rewrite Hs. reflexivity.
Qed.

Lemma llm_remove_key_invalid a p k e w :
  given a = None \/ given p = None ->
  serve (POST (Fields (Some "remove_key") a p k)) e w =
  (Ret (json_response 400 (error_body "Session ID and provider are required")),
   mkWorld (swept e w) (S (ticks w)) (draws w) (wire w)).
Proof.
  intros H. run_llm.
  destruct (given a); [|done]. destruct (given p); [|done]. naive_solver.
Qed.

Lemma llm_check_key_run a id p k e w :
  given a = Some id -> p <> EmptyString ->
  serve (POST (Fields (Some "check_key") a (Some p) k)) e w =
  (Ret (json_response 200
          (JObj [ ("hasKey",
                   JBool (match swept e w !! id with
                          | Some s => value_truthy (obj_get (keys s) p)
                          | None => false
                          end)) ])),
   mkWorld (swept e w) (S (ticks w)) (draws w) (wire w)).
Proof.
  intros Ha Hp. run_llm. rewrite Ha, (given_Some p) by done. reflexivity.
Qed.

Lemma llm_check_key_invalid a p k e w :
  given a = None \/ given p = None ->
  serve (POST (Fields (Some "check_key") a p k)) e w =
  (Ret (json_response 400 (error_body "Session ID and provider are required")),
   mkWorld (swept e w) (S (ticks w)) (draws w) (wire w)).
Proof.
  intros H. run_llm.
  destruct (given a); [|done]. destruct (given p); [|done]. naive_solver.
Qed.

Lemma llm_destroy_run a p k e w :
  serve (POST (Fields (Some "destroy_session") a p k)) e w =
  (Ret (json_response 200 (JObj [ ("success", JBool true) ])),
   mkWorld (match given a with
            | Some id => delete id (swept e w)
            | None => swept e w
            end) (S (ticks w)) (draws w) (wire w)).
Proof. run_llm. by destruct (given a). Qed.


(** ** Sessions are created at clock readings *)

Lemma llm_timely_mono e n n' t : (n <= n')%nat -> timely e n t -> timely e n' t.
Proof. intros Hn H id s Hs. destruct (H id s Hs) as (k & ? & ?). exists k. split; [lia | done]. Qed.

Lemma llm_timely_sweep e n now t : timely e n t -> timely e n (sweep now t).
Proof. intros H id s Hs. apply llm_sweep_Some in Hs as [Hs _]. eauto. Qed.

Lemma llm_timely_insert e n t id ks k :
  (k < n)%nat -> timely e n t -> timely e n (<[id := Session ks (clock e k)]> t).
Proof.
  intros Hk H id' s Hs. apply lookup_insert_Some in Hs as [[_ <-]|[_ Hs]]; eauto.
Qed.

Lemma llm_timely_update e n t id ks s :
  t !! id = Some s -> timely e n t -> timely e n (<[id := Session ks (createdAt s)]> t).
Proof.
  intros Hid H id' s' Hs. apply lookup_insert_Some in Hs as [[_ <-]|[_ Hs]]; [|eauto].
  destruct (H id s Hid) as (k & ? & ?). by exists k.
Qed.

Lemma llm_timely_delete e n t id : timely e n t -> timely e n (delete id t).
Proof. intros H id' s Hs. apply lookup_delete_Some in Hs as [_ Hs]. eauto. Qed.

Lemma llm_serve_timely e w req :
  timely e (ticks w) (table w) ->
  timely e (ticks (serve req e w).2) (table (serve req e w).2).
Proof.
  intros H. unfold serve. case_bool_decide; [done|].
  assert (Hsw : timely e (S (ticks w)) (sweep (clock e (ticks w)) (table w))).
  { apply llm_timely_sweep. eapply llm_timely_mono; [|done]. lia. }
  unfold try_catch, bind, cleanupSessions, Date_now, Map_update, req_json; simpl.
  destruct (content req) as [msg|f]; simpl; [done|].
  unfold dispatch.
  repeat case_bool_decide;
    unfold get_session, set_key, remove_key, check_key, destroy_session,
      bind, ret, Map_get, Map_set, Map_delete, Date_now, generateSessionId,
      getRandomValues; simpl;
    repeat (case_match; simpl; simplify_eq); cbn; rewrite ?insert_insert_eq;
    eauto 6 using llm_timely_mono, llm_timely_insert, llm_timely_update, llm_timely_delete with lia.
Qed.

Lemma llm_reachable_timely e w : reachable e w -> timely e (ticks w) (table w).
Proof.
  induction 1 as [|w req _ IH].
  - intros id s Hs. cbn in Hs. by rewrite lookup_empty in Hs.
  - by apply llm_serve_timely.
Qed.


(** ** [get_session] *)



Lemma demo_monotone : monotone Demo.env.
Proof. intros i j Hij. simpl. lia. Qed.



(** ** [set_key] on an unknown session id *)

(** C10.  [set_key] with a session id that the table does not hold creates
    the session under exactly that caller-supplied string, stamped with the
    current clock reading, stores the key in it and reports success; no
    identifier is generated on this path, whereas every identifier that
    [generateSessionId] mints is 64 hexadecimal digits long. *)
Theorem set_key_adopts_caller_id (e : Env) (w : World session) (id p k : string) :
  id <> EmptyString -> p <> EmptyString -> k <> EmptyString ->
  swept e w !! id = None ->
  serve (POST (Fields (Some "set_key") (Some id) (Some p) (Some k))) e w =
  (Ret (json_response 200
          (JObj [ ("success", JBool true); ("providers", JArr [JStr p]) ])),
   mkWorld (<[id := Session [(p, k)] (clock e (S (ticks w)))]> (swept e w))
           (S (S (ticks w))) (draws w) (wire w)) /\
  (forall n : nat,
     String.length (minted e n) = 64%nat /\
     Forall (fun c => c ∈ hex_chars) (list_ascii_of_string (minted e n))).
Proof.
  intros Hid Hp Hk Hnone. split.
  - by apply llm_set_key_unknown; [apply given_Some|..].
  - intros n. split; [apply minted_length | apply hex_chars_only].
Qed.

Lemma set_key_adopts_caller_id_witness :
  let run := serve (POST (Fields (Some "set_key") (Some "my laptop") (Some "openai")
                            (Some "sk-demo-1"))) Demo.env boot in
  run.1 = Ret (json_response 200
                 (JObj [ ("success", JBool true); ("providers", JArr [JStr "openai"]) ])) /\
  table run.2 !! "my laptop" = Some (Session [("openai", "sk-demo-1")] 1700000000500) /\
  draws run.2 = 0%nat /\
  String.length "my laptop" <> String.length (minted Demo.env 0).
Proof.
  intros run.
  destruct (set_key_adopts_caller_id Demo.env boot "my laptop" "openai" "sk-demo-1")
    as [Hrun Hshape]; [done..|].
  unfold run. rewrite Hrun. split; [reflexivity|]. split; [by vm_compute|].
  split; [reflexivity|]. destruct (Hshape 0%nat) as [-> _]. done.
Defined.

(** ** [check_key] *)

(** What [check_key] answers for a stored, non-empty key. *)
Lemma llm_check_key_present a id p k e w s v :
  given a = Some id -> p <> EmptyString -> swept e w !! id = Some s ->
  own (keys s) p = Some v -> v <> EmptyString ->
  (serve (POST (Fields (Some "check_key") a (Some p) k)) e w).1 =
  Ret (json_response 200 (JObj [ ("hasKey", JBool true) ])).
Proof.
  intros Ha Hp Hs Hv Hne. rewrite (llm_check_key_run a id p k e w Ha Hp), Hs. simpl.
  rewrite obj_get_truthy, Hv. by destruct v.
Qed.

(** What it answers when the session is gone, or when the provider has no
    entry and its name is not one of [Object.prototype]'s. *)
Lemma llm_check_key_absent a id p k e w :
  given a = Some id -> p <> EmptyString ->
  (swept e w !! id = None \/
   exists s, swept e w !! id = Some s /\ own (keys s) p = None /\ p ∉ Object_prototype) ->
  (serve (POST (Fields (Some "check_key") a (Some p) k)) e w).1 =
  Ret (json_response 200 (JObj [ ("hasKey", JBool false) ])).
Proof.
  intros Ha Hp H. rewrite (llm_check_key_run a id p k e w Ha Hp). simpl.
  destruct H as [->|(s & -> & Hown & Hproto)]; [done|].
  rewrite obj_get_truthy, Hown. by rewrite bool_decide_eq_false_2.
Qed.

(** The session [id] is not expired at the next request handled in [w]. *)
Local Abbreviation stays e w id := (swept e w !! id = table w !! id).

(** X1.  The round trip of a key, for a session that stays live throughout:
    after [set_key], [check_key] answers true; after a further
    [remove_key] it answers false, provided the provider name is not the
    name of a member of [Object.prototype]. *)
Lemma vault_round_trip (e : Env) (w : World session) (id p k : string) :
  id <> EmptyString -> p <> EmptyString -> k <> EmptyString ->
  let req a := POST (Fields (Some a) (Some id) (Some p) (Some k)) in
  let w1 := (serve (req "set_key") e w).2 in
  let w2 := (serve (req "remove_key") e w1).2 in
  stays e w1 id -> stays e w2 id ->
  (serve (req "check_key") e w1).1 =
    Ret (json_response 200 (JObj [ ("hasKey", JBool true) ])) /\
  (p ∉ Object_prototype ->
   (serve (req "check_key") e w2).1 =
     Ret (json_response 200 (JObj [ ("hasKey", JBool false) ]))).
Proof.
  intros Hid Hp Hk req w1 w2 Hs1 Hs2.
  assert (H1 : exists ks c, table w1 !! id = Some (Session (obj_set ks p k) c)).
  { unfold w1, req. destruct (swept e w !! id) as [s|] eqn:Hs.
    - rewrite (llm_set_key_known (Some id) id p k s e w) by auto using given_Some.
      simpl. rewrite lookup_insert_eq. eauto.
    - rewrite (llm_set_key_unknown (Some id) id p k e w) by auto using given_Some.
      simpl. rewrite lookup_insert_eq. by exists [], (clock e (S (ticks w))). }
  destruct H1 as (ks & c & Hw1). rewrite <- Hs1 in Hw1. split.
  - eapply llm_check_key_present; eauto using given_Some, own_obj_set_eq.
  - intros Hproto.
    assert (Hw2 : table w2 !! id = Some (Session (obj_delete (obj_set ks p k) p) c)).
    { unfold w2, req.
      rewrite (llm_remove_key_known (Some id) id p _ e w1 (given_Some id Hid) Hp Hw1).
      simpl. by rewrite lookup_insert_eq. }
    rewrite <- Hs2 in Hw2.
    apply (llm_check_key_absent (Some id) id); auto using given_Some.
    right. eexists. split; [exact Hw2|]. split; [apply own_obj_delete_eq | done].
Qed.

Lemma vault_round_trip_witness :
  let req a := POST (Fields (Some a) (Some "s1") (Some "openai") (Some "sk-demo-1")) in
  let w1 := (serve (req "set_key") Demo.env boot).2 in
  let w2 := (serve (req "remove_key") Demo.env w1).2 in
  (serve (req "check_key") Demo.env w1).1 =
    Ret (json_response 200 (JObj [ ("hasKey", JBool true) ])) /\
  (serve (req "check_key") Demo.env w2).1 =
    Ret (json_response 200 (JObj [ ("hasKey", JBool false) ])).
Proof.
  intros req w1 w2.
  destruct (vault_round_trip Demo.env boot "s1" "openai" "sk-demo-1") as [Hset Hremoved];
    [done | done | done | by vm_compute | by vm_compute |].
  split; [exact Hset|]. apply Hremoved. by refine (bool_decide_unpack _ _).
Defined.

(** C6.  For a live session that holds no key under a provider name which
    is also the name of a member of [Object.prototype] (such as
    [constructor]), [check_key] answers [hasKey: true]: the property read
    [session.keys[provider]] finds the inherited member. *)
Theorem check_key_inherited_name (e : Env) (w : World session) (id p : string)
    (k : option string) (s : session) :
  id <> EmptyString ->
  swept e w !! id = Some s ->
  own (keys s) p = None ->
  p ∈ Object_prototype ->
  serve (POST (Fields (Some "check_key") (Some id) (Some p) k)) e w =
  (Ret (json_response 200 (JObj [ ("hasKey", JBool true) ])),
   mkWorld (swept e w) (S (ticks w)) (draws w) (wire w)).
Proof.
  intros Hid Hs Hown Hproto.
  assert (Hp : p <> EmptyString).
  { intros ->. revert Hproto. by refine (bool_decide_unpack _ _). }
  rewrite (llm_check_key_run (Some id) id p k e w (given_Some id Hid) Hp), Hs.
  by rewrite obj_get_truthy, Hown, bool_decide_eq_true_2.
Qed.

Lemma check_key_inherited_name_witness :
  let start := (serve (POST (Fields (Some "get_session") None None None)) Demo.env boot).2 in
  let id := minted Demo.env 0 in
  table start !! id = Some (Session [] 1700000000500) /\
  (serve (POST (Fields (Some "check_key") (Some id) (Some "constructor") None))
     Demo.env start).1 =
  Ret (json_response 200 (JObj [ ("hasKey", JBool true) ])).
Proof.
  intros start id. split; [by vm_compute|].
  rewrite (check_key_inherited_name Demo.env start id "constructor" None
             (Session [] 1700000000500)).
  - reflexivity.
  - by vm_compute.
  - by vm_compute.
  - reflexivity.
  - by refine (bool_decide_unpack _ _).
Defined.

(** The round trip of the specification on the provider name
    [constructor]: after [set_key] and [remove_key], [check_key] still
    answers [hasKey: true]. *)
Example vault_round_trip_constructor :
  let req a := POST (Fields (Some a) (Some "s1") (Some "constructor") (Some "k1")) in
  let w1 := (serve (req "set_key") Demo.env boot).2 in
  let w2 := (serve (req "remove_key") Demo.env w1).2 in
  (serve (req "check_key") Demo.env w1).1 =
    Ret (json_response 200 (JObj [ ("hasKey", JBool true) ])) /\
  (serve (req "remove_key") Demo.env w1).1 =
    Ret (json_response 200 (JObj [ ("success", JBool true); ("providers", JArr []) ])) /\
  (serve (req "check_key") Demo.env w2).1 =
    Ret (json_response 200 (JObj [ ("hasKey", JBool true) ])).
Proof. by vm_compute. Qed.

(** The same round trip on an ordinary provider name. *)
Example vault_round_trip_openai :
  let req a := POST (Fields (Some a) (Some "s1") (Some "openai") (Some "k1")) in
  let w1 := (serve (req "set_key") Demo.env boot).2 in
  let w2 := (serve (req "remove_key") Demo.env w1).2 in
  (serve (req "check_key") Demo.env w1).1 =
    Ret (json_response 200 (JObj [ ("hasKey", JBool true) ])) /\
  (serve (req "check_key") Demo.env w2).1 =
    Ret (json_response 200 (JObj [ ("hasKey", JBool false) ])).
Proof. by vm_compute. Qed.

End llm_facts.

(** * The GitHub proxy *)

Section github_facts.
Import JS Runtime GithubProxy.

Lemma gh_sweep_lookup (now : Z) (t : gmap string session) (id : string) :
  sweep now t !! id =
  match t !! id with
  | Some s => if now - createdAt s >? 3600000 then None else Some s
  | None => None
  end.
Proof.
  unfold sweep.
  rewrite (sweep_fold_lookup (fun s => now - createdAt s >? TTL)).
  by destruct (t !! id).
Qed.

Lemma gh_sweep_Some (now : Z) (t : gmap string session) (id : string) (s : session) :
  sweep now t !! id = Some s <-> t !! id = Some s /\ now - createdAt s <= 3600000.
Proof.
  rewrite gh_sweep_lookup. destruct (t !! id) as [s'|]; [|naive_solver].
  destruct (Z.gtb_spec (now - createdAt s') 3600000); split.
  - done.
  - intros [[= ->] ?]. lia.
  - intros [= ->]. split; [done | lia].
  - by intros [[= ->] ?].
Qed.

Lemma gh_serve_post (f : fields) (e : Env) (w : World session) :
  serve (POST f) e w =
  try_catch (dispatch f) internal_error e
    (mkWorld (sweep (clock e (ticks w)) (table w)) (S (ticks w)) (draws w) (wire w)).
Proof. reflexivity. Qed.

Ltac run_gh :=
  rewrite gh_serve_post;
  unfold try_catch, dispatch; simpl;
  unfold create_session, destroy_session, proxy, internal_error,
    bind, ret, throw, Map_get, Map_set, Map_delete, Date_now, generateSessionId,
    getRandomValues, fetch, response_json, read_login; simpl.

Local Abbreviation swept e w := (sweep (clock e (ticks w)) (table w)).

(** The fields of a [create_session] request. *)
Local Abbreviation create tok ty a ep m b :=
  (POST (Fields (Some "create_session") tok ty a ep m b)).

Lemma gh_create_invalid tok ty a ep m b e w :
  given tok = None ->
  serve (create tok ty a ep m b) e w =
  (Ret (json_response 400 (error_body "Token is required")),
   mkWorld (swept e w) (S (ticks w)) (draws w) (wire w)).
Proof. intros H. run_gh. by rewrite H. Qed.

Lemma gh_create_failed tok ty a ep m b e w t msg :
  given tok = Some t ->
  upstream e (length (wire w)) (verify_request t) = Failed msg ->
  serve (create tok ty a ep m b) e w =
  (Ret (json_response 500 (error_body msg)),
   mkWorld (swept e w) (S (ticks w)) (draws w) (wire w ++ [verify_request t])).
Proof. intros H Hup. run_gh. rewrite H. simpl. by rewrite Hup. Qed.

Lemma gh_create_rejected tok ty a ep m b e w t r :
  given tok = Some t ->
  upstream e (length (wire w)) (verify_request t) = Replied r ->
  ok r = false ->
  serve (create tok ty a ep m b) e w =
  (Ret (json_response 401 (error_body "Invalid GitHub token")),
   mkWorld (swept e w) (S (ticks w)) (draws w) (wire w ++ [verify_request t])).
Proof. intros H Hup Hok. run_gh. rewrite H. simpl. by rewrite Hup, Hok. Qed.

Lemma gh_create_not_json tok ty a ep m b e w t r msg :
  given tok = Some t ->
  upstream e (length (wire w)) (verify_request t) = Replied r ->
  ok r = true -> up_body r = NotJson msg ->
  serve (create tok ty a ep m b) e w =
  (Ret (json_response 500 (error_body msg)),
   mkWorld (swept e w) (S (ticks w)) (draws w) (wire w ++ [verify_request t])).
Proof. intros H Hup Hok Hb. run_gh. rewrite H. simpl. by rewrite Hup, Hok, Hb. Qed.

Lemma gh_create_accepted tok ty a ep m b e w t r userData :
  given tok = Some t ->
  upstream e (length (wire w)) (verify_request t) = Replied r ->
  ok r = true -> up_body r = IsJson userData -> userData <> JNull ->
  serve (create tok ty a ep m b) e w =
  (Ret (json_response 200
          (JObj [ ("sessionId", JStr (minted e (draws w)));
                  ("user", userData);
                  ("expiresIn", JNum 3600) ])),
   mkWorld (<[minted e (draws w) :=
                Session t (or_default ty "classic") (clock e (S (ticks w)))]> (swept e w))
           (S (S (ticks w))) (S (draws w)) (wire w ++ [verify_request t])).
Proof.
  intros H Hup Hok Hb Hnull. run_gh. rewrite H. simpl. rewrite Hup, Hok, Hb. simpl.
  by destruct userData.
Qed.

(** X3.  A verified token whose profile decodes to [null]: the session is
    stored, reading [userData.login] then throws, and the response is the
    error 500. *)
Lemma gh_create_null_profile tok ty a ep m b e w t r :
  given tok = Some t ->
  upstream e (length (wire w)) (verify_request t) = Replied r ->
  ok r = true -> up_body r = IsJson JNull ->
  serve (create tok ty a ep m b) e w =
  (Ret (json_response 500
          (error_body "Cannot read properties of null (reading 'login')")),
   mkWorld (<[minted e (draws w) :=
                Session t (or_default ty "classic") (clock e (S (ticks w)))]> (swept e w))
           (S (S (ticks w))) (S (draws w)) (wire w ++ [verify_request t])).
Proof. intros H Hup Hok Hb. run_gh. rewrite H. simpl. by rewrite Hup, Hok, Hb. Qed.

Lemma gh_create_null_profile_witness :
  let run :=
    serve (POST (Fields (Some "create_session") (Some "ghp_valid") None None None None None))
      Demo.null_env boot in
  run.1 = Ret (json_response 500
                 (error_body "Cannot read properties of null (reading 'login')")) /\
  table run.2 !! minted Demo.null_env 0 =
    Some (Session "ghp_valid" "classic" 1700000000500).
Proof.
  intros run. unfold run.
  rewrite (gh_create_null_profile (Some "ghp_valid") None None None None None
             Demo.null_env boot "ghp_valid" (Reply 200 ∅ (IsJson JNull)));
    try reflexivity.
  split; [reflexivity | by vm_compute].
Defined.

Lemma gh_destroy_run tok ty a ep m b e w :
  serve (POST (Fields (Some "destroy_session") tok ty a ep m b)) e w =
  (Ret (json_response 200 (JObj [ ("success", JBool true) ])),
   mkWorld (match given a with
            | Some id => delete id (swept e w)
            | None => swept e w
            end) (S (ticks w)) (draws w) (wire w)).
Proof. run_gh. by destruct (given a). Qed.

Local Abbreviation via tok ty a ep m b := (POST (Fields (Some "proxy") tok ty a ep m b)).

Lemma gh_proxy_no_session_id tok ty a ep m b e w :
  given a = None ->
  serve (via tok ty a ep m b) e w =
  (Ret (json_response 401 (error_body "Session ID is required")),
   mkWorld (swept e w) (S (ticks w)) (draws w) (wire w)).
Proof. intros H. run_gh. by rewrite H. Qed.

Lemma gh_proxy_no_session tok ty a ep m b e w id :
  given a = Some id -> swept e w !! id = None ->
  serve (via tok ty a ep m b) e w =
  (Ret (json_response 401 (error_body "Invalid or expired session")),
   mkWorld (swept e w) (S (ticks w)) (draws w) (wire w)).
Proof. intros H Hs. run_gh. rewrite H. simpl. by rewrite Hs. Qed.

Lemma gh_proxy_no_endpoint tok ty a ep m b e w id s :
  given a = Some id -> swept e w !! id = Some s -> given ep = None ->
  serve (via tok ty a ep m b) e w =
  (Ret (json_response 400 (error_body "Endpoint is required")),
   mkWorld (swept e w) (S (ticks w)) (draws w) (wire w)).
Proof. intros H Hs Hep. run_gh. rewrite H. simpl. by rewrite Hs, Hep. Qed.

Lemma gh_proxy_replied tok ty a ep m b e w id s x r :
  given a = Some id -> swept e w !! id = Some s -> given ep = Some x ->
  let rq := proxy_request s x (Fields (Some "proxy") tok ty a ep m b) in
  upstream e (length (wire w)) rq = Replied r ->
  serve (via tok ty a ep m b) e w =
  (Ret (json_response (if ok r then 200 else up_status r)
          (JObj [ ("data", json_or_empty r);
                  ("status", JNum (up_status r));
                  ("rateLimit", rateLimit r) ])),
   mkWorld (swept e w) (S (ticks w)) (draws w) (wire w ++ [rq])).
Proof. intros H Hs Hep rq Hup. run_gh. rewrite H. simpl. rewrite Hs, Hep. simpl. fold rq. by rewrite Hup. Qed.

Lemma gh_proxy_failed tok ty a ep m b e w id s x msg :
  given a = Some id -> swept e w !! id = Some s -> given ep = Some x ->
  let rq := proxy_request s x (Fields (Some "proxy") tok ty a ep m b) in
  upstream e (length (wire w)) rq = Failed msg ->
  serve (via tok ty a ep m b) e w =
  (Ret (json_response 500 (error_body msg)),
   mkWorld (swept e w) (S (ticks w)) (draws w) (wire w ++ [rq])).
Proof. intros H Hs Hep rq Hup. run_gh. rewrite H. simpl. rewrite Hs, Hep. simpl. fold rq. by rewrite Hup. Qed.


(** ** [create_session] *)

(** Whatever the upstream answers, [create_session] with a token puts
    exactly the verification call on the wire. *)
Lemma gh_create_wire tok ty a ep m b e w t :
  given tok = Some t ->
  wire (serve (create tok ty a ep m b) e w).2 = wire w ++ [verify_request t].
Proof.
  intros H. run_gh. rewrite H. simpl.
  destruct (upstream e (length (wire w)) (verify_request t)) as [r|msg]; [|done].
  destruct (ok r); simpl; [|done].
  destruct (up_body r) as [msg|j]; simpl; [done|]. by destruct j.
Qed.

(** The table is touched only after a successful verification. *)
Lemma gh_create_stores_only_verified tok ty a ep m b e w t :
  given tok = Some t ->
  table (serve (create tok ty a ep m b) e w).2 <> swept e w ->
  exists r j, upstream e (length (wire w)) (verify_request t) = Replied r /\
              ok r = true /\ up_body r = IsJson j.
Proof.
  intros H. run_gh. rewrite H. simpl.
  destruct (upstream e (length (wire w)) (verify_request t)) as [r|msg]; [|done].
  destruct (ok r) eqn:Hok; simpl; [|done].
  destruct (up_body r) as [msg|j] eqn:Hb; simpl; [done|]. eauto.
Qed.



(** ** [proxy] *)

(** X2.  An endpoint that does not start with [https://] is joined onto
    the fixed base, so the call goes to [api.github.com]. *)
Lemma prefix_app (p s : string) : String.prefix p (p +:+ s) = true.
Proof.
  induction p as [|c p IH]; simpl; [by destruct s|].
  by destruct (Ascii.ascii_dec c c).
Qed.

Lemma gh_fullUrl_relative (x : string) :
  startsWith x "https://" = false ->
  startsWith (fullUrl x) "https://api.github.com/" = true.
Proof.
  intros H. unfold fullUrl. rewrite H. unfold startsWith at 1.
  destruct (startsWith x "/") eqn:Hslash.
  - destruct x as [|c r]; [done|]. unfold startsWith in Hslash. cbn [String.prefix] in Hslash.
    destruct (Ascii.ascii_dec "/" c) as [<-|]; [|done].
    change (API_BASE +:+ String "/" r) with ("https://api.github.com/" +:+ r).
    apply prefix_app.
  - change (API_BASE +:+ "/" +:+ x) with ("https://api.github.com/" +:+ x).
    apply prefix_app.
Qed.

Lemma gh_fullUrl_relative_witness :
  startsWith (fullUrl "@evil.example/steal") "https://api.github.com/" = true /\
  url_host (fullUrl "@evil.example/steal") = "api.github.com".
Proof.
  split; [by apply (gh_fullUrl_relative "@evil.example/steal") | reflexivity].
Defined.

(** An endpoint that starts with [https://] is used as it stands. *)
Lemma gh_fullUrl_absolute (x : string) :
  startsWith x "https://" = true -> fullUrl x = x.
Proof. intros H. unfold fullUrl. by rewrite H. Qed.

Lemma gh_proxy_wire tok ty a ep m b e w id s x :
  given a = Some id -> swept e w !! id = Some s -> given ep = Some x ->
  wire (serve (via tok ty a ep m b) e w).2 =
  wire w ++ [proxy_request s x (Fields (Some "proxy") tok ty a ep m b)].
Proof.
  intros H Hs Hep.
  destruct (upstream e (length (wire w))
              (proxy_request s x (Fields (Some "proxy") tok ty a ep m b))) as [r|msg] eqn:Hup.
  - by rewrite (gh_proxy_replied tok ty a ep m b e w id s x r).
  - by rewrite (gh_proxy_failed tok ty a ep m b e w id s x msg).
Qed.

(** C1.  For a live session and an endpoint that starts with [https://],
    whatever its host, [proxy] issues the call to that very URL with the
    header [Authorization: Bearer] followed by the session's stored token. *)
Theorem proxy_sends_token_to_any_https_url (e : Env) (w : World session)
    (tok ty a ep m : option string) (b : option json) (id x : string) (s : session) :
  given a = Some id -> swept e w !! id = Some s -> given ep = Some x ->
  startsWith x "https://" = true ->
  exists rq : fetch_request,
    wire (serve (POST (Fields (Some "proxy") tok ty a ep m b)) e w).2 = wire w ++ [rq] /\
    rq_url rq = x /\
    ("Authorization", "Bearer " +:+ token s) ∈ rq_headers rq.
Proof.
  intros H Hs Hep Hx. eexists. split; [by eapply gh_proxy_wire|]. split.
  - by apply gh_fullUrl_absolute.
  - simpl. set_solver.
Qed.

Lemma proxy_sends_token_to_any_https_url_witness :
  let w := mkWorld {[ "s1" := Session "ghp_valid" "classic" 1700000000000 ]} 1 0 [] in
  let x := "https://evil.example/steal" in
  url_host x = "evil.example" /\
  url_host x <> url_host API_BASE /\
  exists rq : fetch_request,
    wire (serve (POST (Fields (Some "proxy") None None (Some "s1") (Some x) None None))
            Demo.env w).2 = [rq] /\
    rq_url rq = x /\
    ("Authorization", "Bearer ghp_valid") ∈ rq_headers rq.
Proof.
  intros w x. split; [reflexivity|]. split; [by vm_compute|].
  apply (proxy_sends_token_to_any_https_url Demo.env w None None (Some "s1") (Some x) None None
           "s1" x (Session "ghp_valid" "classic" 1700000000000)).
  - reflexivity.
  - by vm_compute.
  - reflexivity.
  - reflexivity.
Defined.




Lemma gh_destroy_again (f : fields) (e : Env) (w : World session) :
  destroy_session f e (destroy_session f e w).2 = destroy_session f e w.
Proof.
  unfold destroy_session, bind, ret, Map_delete. destruct (given (sessionId f)); simpl; [|done].
  by rewrite delete_delete_eq.
Qed.

End github_facts.

Section llm_destroy.
Import JS Runtime LlmProxy.

Lemma llm_destroy_again (f : fields) (e : Env) (w : World session) :
  destroy_session f e (destroy_session f e w).2 = destroy_session f e w.
Proof.
  unfold destroy_session, bind, ret, Map_delete. destruct (given (sessionId f)); simpl; [|done].
  by rewrite delete_delete_eq.
Qed.

End llm_destroy.

(** * Properties of both brokers *)

Section both.
Import JS Runtime.

Local Abbreviation vault_swept e w := (LlmProxy.sweep (clock e (ticks w)) (table w)).
Local Abbreviation github_swept e w := (GithubProxy.sweep (clock e (ticks w)) (table w)).

(** C4.  The sweep keeps a session exactly when its age [now - createdAt]
    does not exceed the time to live, 86400000 ms in the vault and
    3600000 ms in the GitHub proxy, and it adds nothing; every [POST] runs it
    on the table, with the current clock reading, before the action is
    dispatched.  So a stored key is still found by [check_key] at age
    86400000 and no longer one millisecond later, and [proxy] answers
    [Invalid or expired session] once the session is older than 3600000. *)
Theorem expiry_sweep :
  (forall now t id,
     LlmProxy.sweep now t !! id =
     match t !! id with
     | Some s => if now - LlmProxy.createdAt s >? 86400000 then None else Some s
     | None => None
     end) /\
  (forall now t id,
     GithubProxy.sweep now t !! id =
     match t !! id with
     | Some s => if now - GithubProxy.createdAt s >? 3600000 then None else Some s
     | None => None
     end) /\
  (forall f e w,
     LlmProxy.serve (POST f) e w =
     try_catch (LlmProxy.dispatch f) internal_error e
       (mkWorld (vault_swept e w) (S (ticks w)) (draws w) (wire w))) /\
  (forall f e w,
     GithubProxy.serve (POST f) e w =
     try_catch (GithubProxy.dispatch f) internal_error e
       (mkWorld (github_swept e w) (S (ticks w)) (draws w) (wire w))) /\
  (forall e w id p k s v,
     id <> EmptyString -> p <> EmptyString -> v <> EmptyString ->
     table w !! id = Some s -> own (LlmProxy.keys s) p = Some v ->
     let answer :=
       (LlmProxy.serve (POST (LlmProxy.Fields (Some "check_key") (Some id) (Some p) k)) e w).1 in
     let age := clock e (ticks w) - LlmProxy.createdAt s in
     (age <= 86400000 ->
      answer = Ret (json_response 200 (JObj [ ("hasKey", JBool true) ]))) /\
     (86400000 < age ->
      answer = Ret (json_response 200 (JObj [ ("hasKey", JBool false) ])))) /\
  (forall e w tok ty id ep m b s,
     id <> EmptyString ->
     table w !! id = Some s ->
     3600000 < clock e (ticks w) - GithubProxy.createdAt s ->
     (GithubProxy.serve (POST (GithubProxy.Fields (Some "proxy") tok ty (Some id) ep m b)) e w).1 =
     Ret (json_response 401 (error_body "Invalid or expired session"))).
Proof.
  split; [exact llm_sweep_lookup|]. split; [exact gh_sweep_lookup|].
  split; [exact llm_serve_post|]. split; [exact gh_serve_post|]. split.
  - intros e w id p k s v Hid Hp Hv Hs Hown answer age. split; intros Hage.
    + eapply llm_check_key_present; eauto using given_Some.
      apply llm_sweep_Some. split; [done | by fold age].
    + apply (llm_check_key_absent (Some id) id); auto using given_Some.
      left. rewrite llm_sweep_lookup, Hs.
      destruct (Z.gtb_spec (clock e (ticks w) - LlmProxy.createdAt s) 86400000); [done|].
      unfold age in Hage. lia.
  - intros e w tok ty id ep m b s Hid Hs Hage.
    rewrite (gh_proxy_no_session tok ty (Some id) ep m b e w id); auto using given_Some.
    rewrite gh_sweep_lookup, Hs.
    destruct (Z.gtb_spec (clock e (ticks w) - GithubProxy.createdAt s) 3600000); [done | lia].
Qed.

Lemma expiry_sweep_witness :
  let created := 1700000000000 in
  let v := mkWorld {[ "s1" := LlmProxy.Session [("openai", "sk-demo-1")] created ]} 0 0 [] in
  let g := mkWorld {[ "s1" := GithubProxy.Session "ghp_valid" "classic" created ]} 0 0 [] in
  let check := POST (LlmProxy.Fields (Some "check_key") (Some "s1") (Some "openai") None) in
  let call := POST (GithubProxy.Fields (Some "proxy") None None (Some "s1") (Some "/user")
                      None None) in
  (LlmProxy.serve check (Demo.at_time (created + 86400000)) v).1 =
    Ret (json_response 200 (JObj [ ("hasKey", JBool true) ])) /\
  (LlmProxy.serve check (Demo.at_time (created + 86400001)) v).1 =
    Ret (json_response 200 (JObj [ ("hasKey", JBool false) ])) /\
  (GithubProxy.serve call (Demo.at_time (created + 3600001)) g).1 =
    Ret (json_response 401 (error_body "Invalid or expired session")).
Proof.
  intros created v g check call.
  destruct expiry_sweep as (_ & _ & _ & _ & Hvault & Hgithub).
  split; [|split].
  - refine (proj1 (Hvault (Demo.at_time (created + 86400000)) v "s1" "openai" None
                     (LlmProxy.Session [("openai", "sk-demo-1")] created) "sk-demo-1"
                     _ _ _ _ _) _); try done; by vm_compute.
  - refine (proj2 (Hvault (Demo.at_time (created + 86400001)) v "s1" "openai" None
                     (LlmProxy.Session [("openai", "sk-demo-1")] created) "sk-demo-1"
                     _ _ _ _ _) _); try done; by vm_compute.
  - refine (Hgithub (Demo.at_time (created + 3600001)) g None None "s1" (Some "/user") None None
              (GithubProxy.Session "ghp_valid" "classic" created) _ _ _); try done; by vm_compute.
Defined.

(** C8.  [destroy_session] answers [{success: true}] with status 200
    whatever the session id is; the table it leaves is the swept table
    without that id, hence the swept table itself when the id is omitted,
    empty or unknown; and handling the same [destroy_session] once more
    changes nothing. *)
Theorem destroy_session_idempotent :
  (forall a p k e w,
     LlmProxy.serve (POST (LlmProxy.Fields (Some "destroy_session") a p k)) e w =
     (Ret (json_response 200 (JObj [ ("success", JBool true) ])),
      mkWorld (match given a with
               | Some id => delete id (vault_swept e w)
               | None => vault_swept e w
               end) (S (ticks w)) (draws w) (wire w))) /\
  (forall tok ty a ep m b e w,
     GithubProxy.serve (POST (GithubProxy.Fields (Some "destroy_session") tok ty a ep m b)) e w =
     (Ret (json_response 200 (JObj [ ("success", JBool true) ])),
      mkWorld (match given a with
               | Some id => delete id (github_swept e w)
               | None => github_swept e w
               end) (S (ticks w)) (draws w) (wire w))) /\
  (forall a p k e w,
     (given a = None \/ exists id, given a = Some id /\ vault_swept e w !! id = None) ->
     table (LlmProxy.serve (POST (LlmProxy.Fields (Some "destroy_session") a p k)) e w).2 =
     vault_swept e w) /\
  (forall tok ty a ep m b e w,
     (given a = None \/ exists id, given a = Some id /\ github_swept e w !! id = None) ->
     table (GithubProxy.serve
              (POST (GithubProxy.Fields (Some "destroy_session") tok ty a ep m b)) e w).2 =
     github_swept e w) /\
  (forall f e w,
     LlmProxy.destroy_session f e (LlmProxy.destroy_session f e w).2 =
     LlmProxy.destroy_session f e w) /\
  (forall f e w,
     GithubProxy.destroy_session f e (GithubProxy.destroy_session f e w).2 =
     GithubProxy.destroy_session f e w) /\
  (forall a p k e w,
     let again := LlmProxy.serve (POST (LlmProxy.Fields (Some "destroy_session") a p k)) e in
     table (again (again w).2).2 = vault_swept e (again w).2) /\
  (forall tok ty a ep m b e w,
     let again :=
       GithubProxy.serve (POST (GithubProxy.Fields (Some "destroy_session") tok ty a ep m b)) e in
     table (again (again w).2).2 = github_swept e (again w).2).
Proof.
  assert (Hl : forall a p k e w,
     (given a = None \/ exists id, given a = Some id /\ vault_swept e w !! id = None) ->
     table (LlmProxy.serve (POST (LlmProxy.Fields (Some "destroy_session") a p k)) e w).2 =
     vault_swept e w).
  { intros a p k e w H. rewrite llm_destroy_run. simpl.
    destruct H as [->|(id & -> & Hid)]; [done | by apply delete_id]. }
  assert (Hg : forall tok ty a ep m b e w,
     (given a = None \/ exists id, given a = Some id /\ github_swept e w !! id = None) ->
     table (GithubProxy.serve
              (POST (GithubProxy.Fields (Some "destroy_session") tok ty a ep m b)) e w).2 =
     github_swept e w).
  { intros tok ty a ep m b e w H. rewrite gh_destroy_run. simpl.
    destruct H as [->|(id & -> & Hid)]; [done | by apply delete_id]. }
  split; [exact llm_destroy_run|]. split; [exact gh_destroy_run|].
  split; [exact Hl|]. split; [exact Hg|].
  split; [exact llm_destroy_again|]. split; [exact gh_destroy_again|]. split.
  - intros a p k e w again. unfold again. apply Hl.
    destruct (given a) as [id|] eqn:Ha; [right | by left].
    exists id. split; [done|]. rewrite llm_sweep_lookup, llm_destroy_run. simpl.
    by rewrite Ha, lookup_delete_eq.
  - intros tok ty a ep m b e w again. unfold again. apply Hg.
    destruct (given a) as [id|] eqn:Ha; [right | by left].
    exists id. split; [done|]. rewrite gh_sweep_lookup, gh_destroy_run. simpl.
    by rewrite Ha, lookup_delete_eq.
Qed.

(** ** Missing fields *)

(** C5, as stated, fails: [proxy] without a session id is answered with
    status 401, not 400. *)
Lemma proxy_without_session_id_is_401 :
  exists resp : Response,
    (GithubProxy.serve
       (POST (GithubProxy.Fields (Some "proxy") None None None (Some "/user") None None))
       Demo.env boot).1 = Ret resp /\
    resp = json_response 401 (error_body "Session ID is required") /\
    status resp <> 400.
Proof. eexists. split; [reflexivity|]. split; [reflexivity | done]. Qed.

(** C5, amended.  A request that omits a required field, or leaves it
    empty, is answered with [{error: message}] and leaves the table as the
    sweep left it.  The status is 400 for [create_session] without a token,
    for [set_key] without session id, provider or key, for [remove_key] and
    [check_key] without session id or provider, and for [proxy] without an
    endpoint once its session has been found; each message names every
    field the action requires.  [proxy] without a session id is answered
    with status 401. *)
Theorem missing_field_responses :
  (forall a p k e w,
     given a = None \/ given p = None \/ given k = None ->
     LlmProxy.serve (POST (LlmProxy.Fields (Some "set_key") a p k)) e w =
     (Ret (json_response 400 (error_body "Session ID, provider, and API key are required")),
      mkWorld (vault_swept e w) (S (ticks w)) (draws w) (wire w))) /\
  (forall a p k e w,
     given a = None \/ given p = None ->
     LlmProxy.serve (POST (LlmProxy.Fields (Some "remove_key") a p k)) e w =
     (Ret (json_response 400 (error_body "Session ID and provider are required")),
      mkWorld (vault_swept e w) (S (ticks w)) (draws w) (wire w))) /\
  (forall a p k e w,
     given a = None \/ given p = None ->
     LlmProxy.serve (POST (LlmProxy.Fields (Some "check_key") a p k)) e w =
     (Ret (json_response 400 (error_body "Session ID and provider are required")),
      mkWorld (vault_swept e w) (S (ticks w)) (draws w) (wire w))) /\
  (forall tok ty a ep m b e w,
     given tok = None ->
     GithubProxy.serve (POST (GithubProxy.Fields (Some "create_session") tok ty a ep m b)) e w =
     (Ret (json_response 400 (error_body "Token is required")),
      mkWorld (github_swept e w) (S (ticks w)) (draws w) (wire w))) /\
  (forall tok ty a ep m b e w id s,
     given a = Some id -> github_swept e w !! id = Some s -> given ep = None ->
     GithubProxy.serve (POST (GithubProxy.Fields (Some "proxy") tok ty a ep m b)) e w =
     (Ret (json_response 400 (error_body "Endpoint is required")),
      mkWorld (github_swept e w) (S (ticks w)) (draws w) (wire w))) /\
  (forall tok ty a ep m b e w,
     given a = None ->
     GithubProxy.serve (POST (GithubProxy.Fields (Some "proxy") tok ty a ep m b)) e w =
     (Ret (json_response 401 (error_body "Session ID is required")),
      mkWorld (github_swept e w) (S (ticks w)) (draws w) (wire w))) /\
  (forall s : option string, given s = None <-> s = None \/ s = Some EmptyString).
Proof.
  split; [exact llm_set_key_invalid|]. split; [exact llm_remove_key_invalid|].
  split; [exact llm_check_key_invalid|]. split; [exact gh_create_invalid|].
  split; [exact gh_proxy_no_endpoint|]. split; [exact gh_proxy_no_session_id|].
  exact given_None.
Qed.

Lemma missing_field_responses_witness :
  (LlmProxy.serve (POST (LlmProxy.Fields (Some "set_key") (Some "s1") (Some "") (Some "k")))
     Demo.env boot).1 =
    Ret (json_response 400 (error_body "Session ID, provider, and API key are required")) /\
  (GithubProxy.serve
     (POST (GithubProxy.Fields (Some "create_session") None None None None None None))
     Demo.env boot).1 =
    Ret (json_response 400 (error_body "Token is required")).
Proof.
  destruct missing_field_responses as (Hset & _ & _ & Hcreate & _).
  split.
  - rewrite Hset; [reflexivity|]. right. by left.
  - by rewrite Hcreate.
Defined.

End both.

(** * Secrecy *)

Section tables.
Import Secrecy.
Context {S : Type} (R : S -> S -> Prop).

Lemma tables_alike_insert (t1 t2 : gmap string S) (id : string) (s1 s2 : S) :
  R s1 s2 -> tables_alike R t1 t2 -> tables_alike R (<[id := s1]> t1) (<[id := s2]> t2).
Proof.
  intros Hs H id'. destruct (decide (id = id')) as [->|Hne].
  - rewrite !lookup_insert_eq. by constructor.
  - rewrite !lookup_insert_ne by done. apply H.
Qed.

Lemma tables_alike_delete (t1 t2 : gmap string S) (id : string) :
  tables_alike R t1 t2 -> tables_alike R (delete id t1) (delete id t2).
Proof.
  intros H id'. destruct (decide (id = id')) as [->|Hne].
  - rewrite !lookup_delete_eq. constructor.
  - rewrite !lookup_delete_ne by done. apply H.
Qed.

End tables.

Section secrecy_vault.
Import JS Runtime LlmProxy Secrecy.

Lemma keys_alike_names (o1 o2 : object) : keys_alike o1 o2 -> o1.*1 = o2.*1.
Proof. induction 1 as [|a b o1 o2 [Hab _] _ IH]; [done|]. rewrite !fmap_cons. by rewrite Hab, IH. Qed.

Lemma keys_alike_Object_keys (o1 o2 : object) :
  keys_alike o1 o2 -> Object_keys o1 = Object_keys o2.
Proof. intros H. unfold Object_keys. by rewrite (keys_alike_names o1 o2 H). Qed.

Lemma keys_alike_read (o1 o2 : object) (p : string) :
  keys_alike o1 o2 -> value_truthy (obj_get o1 p) = value_truthy (obj_get o2 p).
Proof.
  intros H. rewrite !obj_get_truthy. unfold own.
  induction H as [|[k1 v1] [k2 v2] o1 o2 [Hk Hv] _ IH]; simpl in *; [done|]. subst k2.
  destruct (bool_decide (k1 = p)); [exact Hv | exact IH].
Qed.

Lemma keys_alike_set (o1 o2 : object) (p k1 k2 : string) :
  keys_alike o1 o2 -> truthy (Some k1) = truthy (Some k2) ->
  keys_alike (obj_set o1 p k1) (obj_set o2 p k2).
Proof.
  intros H Hk. induction H as [|[a1 v1] [a2 v2] o1 o2 [Ha Hv] Hrest IH]; simpl in *.
  - by repeat constructor.
  - subst a2. destruct (decide (a1 = p)); by constructor.
Qed.

Lemma keys_alike_delete (o1 o2 : object) (p : string) :
  keys_alike o1 o2 -> keys_alike (obj_delete o1 p) (obj_delete o2 p).
Proof.
  intros H. unfold obj_delete.
  induction H as [|[a1 v1] [a2 v2] o1 o2 [Ha Hv] Hrest IH]; simpl in *; [constructor|].
  subst a2. destruct (bool_decide (a1 = p)); simpl; [done | by constructor].
Qed.

Lemma vault_sweep_alike (now : Z) (t1 t2 : gmap string session) :
  tables_alike vault_sessions_alike t1 t2 ->
  tables_alike vault_sessions_alike (sweep now t1) (sweep now t2).
Proof.
  intros H id. rewrite !llm_sweep_lookup.
  destruct (H id) as [s1 s2 [Hk Hc]|]; [|constructor].
  rewrite Hc. destruct (_ >? _); by constructor.
Qed.



Local Abbreviation alike := (worlds_alike vault_sessions_alike).

Ltac vault_open :=
  repeat match goal with
  | w : World session |- _ => destruct w
  | f : fields |- _ => destruct f
  | H : alike _ _ |- _ => destruct H as (? & ? & ? & ?)
  | H : vault_fields_alike _ _ |- _ => destruct H as (? & ? & ? & ?)
  end; simpl in *; subst.

Ltac vault_step :=
  unfold get_session, set_key, remove_key, check_key, destroy_session,
    bind, ret, Map_get, Map_set, Map_delete, Date_now, generateSessionId,
    getRandomValues; simpl.

Lemma given_alike (k1 k2 : option string) :
  truthy k1 = truthy k2 ->
  option_Forall2 (fun a b => truthy (Some a) = truthy (Some b)) (given k1) (given k2).
Proof.
  unfold given. intros H.
  destruct k1 as [[|c1 r1]|], k2 as [[|c2 r2]|]; simpl in *; try done; by constructor.
Qed.

Lemma vault_get_session_alike e f1 f2 w1 w2 :
  vault_fields_alike f1 f2 -> alike w1 w2 ->
  (get_session f1 e w1).1 = (get_session f2 e w2).1 /\
  alike (get_session f1 e w1).2 (get_session f2 e w2).2.
Proof.
  intros Hf Hw. vault_open. vault_step.
  destruct (given _) as [id|]; simpl.
  - match goal with H : tables_alike _ _ _ |- _ => pose proof (H id) as Hid end.
    destruct Hid as [s1 s2 [Hk Hc]|]; simpl.
    + rewrite (keys_alike_Object_keys _ _ Hk), Hc. by repeat split.
    + repeat split; try done. simpl. apply tables_alike_insert; [|done]. by repeat constructor.
  - repeat split; try done. simpl. apply tables_alike_insert; [|done]. by repeat constructor.
Qed.

Lemma vault_set_key_alike e f1 f2 w1 w2 :
  vault_fields_alike f1 f2 -> alike w1 w2 ->
  (set_key f1 e w1).1 = (set_key f2 e w2).1 /\
  alike (set_key f1 e w1).2 (set_key f2 e w2).2.
Proof.
  intros Hf Hw. vault_open. vault_step.
  destruct (given sessionId0) as [id|]; simpl; [|by repeat split].
  destruct (given provider0) as [p|]; simpl; [|by repeat split].
  match goal with H : truthy _ = truthy _ |- _ => destruct (given_alike _ _ H) as [k1 k2 Hk|] end;
    simpl; [|by repeat split].
  match goal with H : tables_alike _ _ _ |- _ => pose proof (H id) as Hid end.
  destruct Hid as [s1 s2 [Hks Hc]|]; simpl.
  - rewrite (keys_alike_Object_keys _ _ (keys_alike_set _ _ p k1 k2 Hks Hk)).
    repeat split; try done. simpl. apply tables_alike_insert; [|done].
    split; [by apply keys_alike_set | done].
  - destruct (decide (p = p)); [|done]. rewrite !Object_keys_singleton.
    repeat split; try done. simpl. rewrite !insert_insert_eq.
    apply tables_alike_insert; [|done]. split; [|done]. by repeat constructor.
Qed.

Lemma vault_remove_key_alike e f1 f2 w1 w2 :
  vault_fields_alike f1 f2 -> alike w1 w2 ->
  (remove_key f1 e w1).1 = (remove_key f2 e w2).1 /\
  alike (remove_key f1 e w1).2 (remove_key f2 e w2).2.
Proof.
  intros Hf Hw. vault_open. vault_step.
  destruct (given sessionId0) as [id|]; simpl; [|by repeat split].
  destruct (given provider0) as [p|]; simpl; [|by repeat split].
  match goal with H : tables_alike _ _ _ |- _ => pose proof (H id) as Hid end.
  destruct Hid as [s1 s2 [Hks Hc]|]; simpl; [|by repeat split].
  rewrite (keys_alike_Object_keys _ _ (keys_alike_delete _ _ p Hks)).
  repeat split; try done. simpl. apply tables_alike_insert; [|done].
  split; [by apply keys_alike_delete | done].
Qed.

Lemma vault_check_key_alike e f1 f2 w1 w2 :
  vault_fields_alike f1 f2 -> alike w1 w2 ->
  (check_key f1 e w1).1 = (check_key f2 e w2).1 /\
  alike (check_key f1 e w1).2 (check_key f2 e w2).2.
Proof.
  intros Hf Hw. vault_open. vault_step.
  destruct (given sessionId0) as [id|]; simpl; [|by repeat split].
  destruct (given provider0) as [p|]; simpl; [|by repeat split].
  match goal with H : tables_alike _ _ _ |- _ => pose proof (H id) as Hid end.
  destruct Hid as [s1 s2 [Hks Hc]|]; simpl; [|by repeat split].
  rewrite (keys_alike_read _ _ p Hks). by repeat split.
Qed.

Lemma vault_destroy_alike e f1 f2 w1 w2 :
  vault_fields_alike f1 f2 -> alike w1 w2 ->
  (destroy_session f1 e w1).1 = (destroy_session f2 e w2).1 /\
  alike (destroy_session f1 e w1).2 (destroy_session f2 e w2).2.
Proof.
  intros Hf Hw. vault_open. vault_step.
  destruct (given sessionId0) as [id|]; simpl; [|by repeat split].
  repeat split; try done. simpl. by apply tables_alike_delete.
Qed.

Lemma vault_dispatch_alike e f1 f2 w1 w2 :
  vault_fields_alike f1 f2 -> alike w1 w2 ->
  (dispatch f1 e w1).1 = (dispatch f2 e w2).1 /\
  alike (dispatch f1 e w1).2 (dispatch f2 e w2).2.
Proof.
  intros Hf Hw. unfold dispatch. destruct Hf as (Ha & Hrest). rewrite <- Ha.
  assert (Hf : vault_fields_alike f1 f2) by (by split).
  repeat case_bool_decide;
    eauto using vault_get_session_alike, vault_set_key_alike, vault_remove_key_alike,
      vault_check_key_alike, vault_destroy_alike.
Qed.

(** The vault's responses do not depend on the secrets it holds or is
    sent. *)
Lemma vault_serve_alike e r1 r2 w1 w2 :
  requests_alike vault_fields_alike r1 r2 -> alike w1 w2 ->
  (serve r1 e w1).1 = (serve r2 e w2).1 /\
  alike (serve r1 e w1).2 (serve r2 e w2).2.
Proof.
  intros [Hm Hc] Hw. unfold serve. rewrite <- Hm. case_bool_decide; [done|].
  assert (Hsw : alike
            (mkWorld (sweep (clock e (ticks w1)) (table w1)) (S (ticks w1)) (draws w1) (wire w1))
            (mkWorld (sweep (clock e (ticks w2)) (table w2)) (S (ticks w2)) (draws w2) (wire w2))).
  { destruct Hw as (Ht & Htk & Hd & Hwi). rewrite Htk, Hd. repeat split; try done.
    simpl. by apply vault_sweep_alike. }
  unfold try_catch, bind, cleanupSessions, Date_now, Map_update, req_json. simpl.
  destruct (content r1) as [m1|f1], (content r2) as [m2|f2]; try done; simpl.
  - by subst.
  - destruct (vault_dispatch_alike e f1 f2 _ _ Hc Hsw) as [Hout Hal].
    destruct (dispatch f1 e _) as [o1 w1'], (dispatch f2 e _) as [o2 w2']. simpl in *. subst o2.
    by destruct o1.
Qed.

End secrecy_vault.

Section secrecy_github.
Import JS Runtime GithubProxy Secrecy.

Local Abbreviation alike := (worlds_alike github_sessions_alike).

Lemma github_sweep_alike (now : Z) (t1 t2 : gmap string session) :
  tables_alike github_sessions_alike t1 t2 ->
  tables_alike github_sessions_alike (sweep now t1) (sweep now t2).
Proof.
  intros H id. rewrite !gh_sweep_lookup.
  destruct (H id) as [s1 s2 [Hk Hc]|]; [|constructor].
  rewrite Hc. destruct (_ >? _); by constructor.
Qed.

Lemma random_bytes_alike e1 e2 k n :
  sources_alike e1 e2 -> random_bytes e1 k n = random_bytes e2 k n.
Proof.
  intros (_ & He). unfold random_bytes. apply list_fmap_ext. intros _ i _. by rewrite He.
Qed.

Lemma auth_headers_alike (t1 t2 : string) (extra : list (string * string)) :
  Forall2 (fun h1 h2 => h1.1 = h2.1 /\ (h1.1 <> "Authorization" -> h1.2 = h2.2))
    (auth_headers t1 ++ extra) (auth_headers t2 ++ extra).
Proof.
  unfold auth_headers. simpl. constructor; [by split|].
  apply Forall_Forall2_diag, Forall_forall. by intros.
Qed.

Lemma verify_request_alike (t1 t2 : string) :
  calls_alike (verify_request t1) (verify_request t2).
Proof.
  repeat split. simpl rq_headers.
  rewrite <- (app_nil_r (auth_headers t1)), <- (app_nil_r (auth_headers t2)).
  apply auth_headers_alike.
Qed.

Lemma proxy_request_alike (s1 s2 : session) (x : string) (f1 f2 : fields) :
  github_fields_alike f1 f2 ->
  calls_alike (proxy_request s1 x f1) (proxy_request s2 x f2).
Proof.
  intros (_ & _ & _ & _ & _ & Hm & Hb). unfold proxy_request, calls_alike. simpl.
  rewrite Hm, Hb. repeat split. apply auth_headers_alike.
Qed.

Ltac github_open :=
  repeat match goal with
  | w : World session |- _ => destruct w
  | H : alike _ _ |- _ => destruct H as (? & ? & ? & ?)
  end; simpl in *; subst.

Ltac github_step :=
  unfold create_session, destroy_session, proxy,
    bind, ret, throw, Map_get, Map_set, Map_delete, Date_now, generateSessionId,
    getRandomValues, fetch, response_json, read_login; simpl.

(** The call each action makes. *)
Lemma gh_create_call (f : fields) (e : Env) (w : World session) (t : string) :
  given (f_token f) = Some t ->
  wire (create_session f e w).2 = wire w ++ [verify_request t].
Proof.
  intros H. github_step. rewrite H. simpl.
  destruct (upstream e _ _) as [r|msg]; [|done].
  destruct (ok r); simpl; [|done].
  destruct (up_body r) as [msg|j]; simpl; [done|]. by destruct j.
Qed.

Lemma gh_proxy_call (f : fields) (e : Env) (w : World session) (id x : string) (s : session) :
  given (sessionId f) = Some id -> table w !! id = Some s -> given (endpoint f) = Some x ->
  wire (proxy f e w).2 = wire w ++ [proxy_request s x f].
Proof.
  intros H Hs Hx. github_step. rewrite H. simpl. rewrite Hs, Hx. simpl.
  by destruct (upstream e _ _).
Qed.

Lemma github_create_alike e1 e2 f1 f2 w1 w2 :
  sources_alike e1 e2 -> github_fields_alike f1 f2 -> alike w1 w2 ->
  answered_alike e1 e2 w1 (create_session f1 e1 w1).2 w2 (create_session f2 e2 w2).2 ->
  (create_session f1 e1 w1).1 = (create_session f2 e2 w2).1 /\
  alike (create_session f1 e1 w1).2 (create_session f2 e2 w2).2.
Proof.
  intros He Hf Hw Hans. pose proof He as (Hclock & _).
  destruct Hf as (_ & Htok & Hty & _).
  pose proof (given_alike _ _ Htok) as Hg.
  destruct (given (f_token f1)) as [t1|] eqn:Ht1, (given (f_token f2)) as [t2|] eqn:Ht2;
    try by inversion Hg.
  2:{ github_open. github_step. rewrite Ht1, Ht2. by repeat split. }
  specialize (Hans _ _ (gh_create_call f1 e1 w1 t1 Ht1) (gh_create_call f2 e2 w2 t2 Ht2)).
  github_open. github_step. rewrite Ht1, Ht2. simpl. rewrite Hans.
  assert (Hwire' : forall l1 l2, Forall2 calls_alike l1 l2 ->
            Forall2 calls_alike (l1 ++ [verify_request t1]) (l2 ++ [verify_request t2])).
  { intros l1 l2 Hl. apply Forall2_app; [done|].
    constructor; [apply verify_request_alike | constructor]. }
  destruct (upstream e2 _ _) as [r|msg]; simpl; [|by repeat split; simpl; auto].
  destruct (ok r); simpl; [|by repeat split; simpl; auto].
  destruct (up_body r) as [msg|j]; simpl; [by repeat split; simpl; auto|].
  rewrite (random_bytes_alike e1 e2 _ _ He), Hclock, Hty.
  destruct j; simpl; repeat split; simpl; auto; by apply tables_alike_insert.
Qed.

Lemma github_destroy_alike e1 e2 f1 f2 w1 w2 :
  github_fields_alike f1 f2 -> alike w1 w2 ->
  (destroy_session f1 e1 w1).1 = (destroy_session f2 e2 w2).1 /\
  alike (destroy_session f1 e1 w1).2 (destroy_session f2 e2 w2).2.
Proof.
  intros (_ & _ & _ & Hid & _) Hw. github_open. github_step. rewrite Hid.
  destruct (given _) as [id|]; simpl; [|by repeat split].
  repeat split; try done. simpl. by apply tables_alike_delete.
Qed.

Lemma github_proxy_alike e1 e2 f1 f2 w1 w2 :
  sources_alike e1 e2 -> github_fields_alike f1 f2 -> alike w1 w2 ->
  answered_alike e1 e2 w1 (proxy f1 e1 w1).2 w2 (proxy f2 e2 w2).2 ->
  (proxy f1 e1 w1).1 = (proxy f2 e2 w2).1 /\
  alike (proxy f1 e1 w1).2 (proxy f2 e2 w2).2.
Proof.
  intros He Hf Hw Hans.
  pose proof Hf as (_ & _ & _ & Hid & Hep & _).
  destruct (given (sessionId f1)) as [id|] eqn:Eid.
  2:{ github_open. github_step. rewrite <- Hid, Eid. by repeat split. }
  pose proof Hw as (Ht & _). pose proof (Ht id) as Hs.
  destruct (table w1 !! id) as [s1|] eqn:Es1, (table w2 !! id) as [s2|] eqn:Es2;
    try by inversion Hs.
  2:{ github_open. github_step. rewrite <- Hid, Eid. simpl. rewrite Es1, Es2. by repeat split. }
  destruct (given (endpoint f1)) as [x|] eqn:Ex.
  2:{ github_open. github_step. rewrite <- Hid, Eid, <- Hep, Ex. simpl.
      rewrite Es1, Es2. by repeat split. }
  assert (Eid2 : given (sessionId f2) = Some id) by (by rewrite <- Hid).
  assert (Ex2 : given (endpoint f2) = Some x) by (by rewrite <- Hep).
  specialize (Hans _ _ (gh_proxy_call f1 e1 w1 id x s1 Eid Es1 Ex)
                (gh_proxy_call f2 e2 w2 id x s2 Eid2 Es2 Ex2)).
  github_open. github_step. rewrite Eid, Eid2, Ex, Ex2. simpl. rewrite Es1, Es2. simpl.
  rewrite Hans.
  destruct (upstream e2 _ _) as [r|msg]; simpl; repeat split; try done; simpl;
    (apply Forall2_app; [done|]; constructor; [by apply proxy_request_alike | constructor]).
Qed.

Lemma github_dispatch_alike e1 e2 f1 f2 w1 w2 :
  sources_alike e1 e2 -> github_fields_alike f1 f2 -> alike w1 w2 ->
  answered_alike e1 e2 w1 (dispatch f1 e1 w1).2 w2 (dispatch f2 e2 w2).2 ->
  (dispatch f1 e1 w1).1 = (dispatch f2 e2 w2).1 /\
  alike (dispatch f1 e1 w1).2 (dispatch f2 e2 w2).2.
Proof.
  intros He Hf Hw. unfold dispatch. pose proof Hf as (Ha & _). rewrite <- Ha.
  repeat case_bool_decide;
    eauto using github_create_alike, github_destroy_alike, github_proxy_alike.
Qed.

(** The proxy's responses depend on the stored and submitted tokens only
    through what the upstream answers. *)
Lemma github_serve_alike e1 e2 r1 r2 w1 w2 :
  sources_alike e1 e2 -> requests_alike github_fields_alike r1 r2 -> alike w1 w2 ->
  answered_alike e1 e2 w1 (serve r1 e1 w1).2 w2 (serve r2 e2 w2).2 ->
  (serve r1 e1 w1).1 = (serve r2 e2 w2).1 /\
  alike (serve r1 e1 w1).2 (serve r2 e2 w2).2.
Proof.
  intros He [Hm Hc] Hw. unfold serve. rewrite <- Hm. case_bool_decide; [done|].
  pose proof He as (Hclock & _).
  assert (Hsw : alike
            (mkWorld (sweep (clock e1 (ticks w1)) (table w1)) (S (ticks w1)) (draws w1) (wire w1))
            (mkWorld (sweep (clock e2 (ticks w2)) (table w2)) (S (ticks w2)) (draws w2) (wire w2))).
  { destruct Hw as (Ht & Htk & Hd & Hwi). rewrite Htk, Hd, Hclock. repeat split; try done.
    simpl. by apply github_sweep_alike. }
  unfold try_catch, bind, cleanupSessions, Date_now, Map_update, req_json. simpl.
  destruct (content r1) as [m1|f1], (content r2) as [m2|f2]; try done; simpl.
  - by subst.
  - intros Hans.
    destruct (github_dispatch_alike e1 e2 f1 f2 _ _ He Hc Hsw) as [Hout Hal].
    { intros rq1 rq2 H1 H2. simpl in *. apply Hans.
      - by destruct (dispatch f1 e1 _) as [[] ?].
      - by destruct (dispatch f2 e2 _) as [[] ?]. }
    destruct (dispatch f1 e1 _) as [o1 w1'], (dispatch f2 e2 _) as [o2 w2']. simpl in *. subst o2.
    by destruct o1.
Qed.

End secrecy_github.

Section secrecy.
Import JS Runtime Secrecy.


(** What the missing host check of [proxy] makes of the secrecy of the
    token: a host that answers with the headers it was sent gets the token
    returned to the caller in [data]. *)
Example proxy_echo_returns_token :
  let w := mkWorld {[ "s1" := GithubProxy.Session "ghp_valid" "classic" 1700000000000 ]} 1 0 [] in
  exists (resp : Response) (text : string),
    (GithubProxy.serve
       (POST (GithubProxy.Fields (Some "proxy") None None (Some "s1")
                (Some "https://echo.example/headers") None None))
       Demo.echo_env w).1 = Ret resp /\
    body resp = Some text /\
    includes text "ghp_valid" = true.
Proof. intros w. eexists _, _. split; [by vm_compute|]. split; by vm_compute. Qed.


Lemma tables_alike_empty {S} (R : S -> S -> Prop) : tables_alike R ∅ ∅.
Proof. intros id. rewrite !lookup_empty. constructor. Qed.


End secrecy.

(** * The sweep as an operation on tables *)

Section sweep_algebra.
Import JS Runtime.

(** X4.  The sweep only removes: its result is a part of the table; a
    sweep at a later time does at least the work of an earlier one, so
    sweeping twice, in either order, leaves what the later sweep alone
    leaves; in particular the sweep is idempotent.  This holds for both
    brokers. *)
Theorem sweep_composes :
  (forall now t, LlmProxy.sweep now t ⊆ t) /\
  (forall now1 now2 t, now1 <= now2 ->
     LlmProxy.sweep now2 (LlmProxy.sweep now1 t) = LlmProxy.sweep now2 t /\
     LlmProxy.sweep now1 (LlmProxy.sweep now2 t) = LlmProxy.sweep now2 t /\
     LlmProxy.sweep now2 t ⊆ LlmProxy.sweep now1 t) /\
  (forall now t, GithubProxy.sweep now t ⊆ t) /\
  (forall now1 now2 t, now1 <= now2 ->
     GithubProxy.sweep now2 (GithubProxy.sweep now1 t) = GithubProxy.sweep now2 t /\
     GithubProxy.sweep now1 (GithubProxy.sweep now2 t) = GithubProxy.sweep now2 t /\
     GithubProxy.sweep now2 t ⊆ GithubProxy.sweep now1 t).
Proof.
  split; [|split; [|split]].
  - intros now t. apply map_subseteq_spec. intros id s Hs.
    by apply llm_sweep_Some in Hs as [Hs _].
  - intros now1 now2 t Hle. split; [|split].
    + apply map_eq. intros id. rewrite !llm_sweep_lookup.
      destruct (t !! id) as [s|]; [|done].
      destruct (Z.gtb_spec (now1 - LlmProxy.createdAt s) 86400000),
               (Z.gtb_spec (now2 - LlmProxy.createdAt s) 86400000); try done; lia.
    + apply map_eq. intros id. rewrite !llm_sweep_lookup.
      destruct (t !! id) as [s|]; [|done].
      destruct (Z.gtb_spec (now2 - LlmProxy.createdAt s) 86400000); [done|].
      destruct (Z.gtb_spec (now1 - LlmProxy.createdAt s) 86400000); [lia | done].
    + apply map_subseteq_spec. intros id s Hs.
      apply llm_sweep_Some in Hs as [Hs Hage]. apply llm_sweep_Some. split; [done | lia].
  - intros now t. apply map_subseteq_spec. intros id s Hs.
    by apply gh_sweep_Some in Hs as [Hs _].
  - intros now1 now2 t Hle. split; [|split].
    + apply map_eq. intros id. rewrite !gh_sweep_lookup.
      destruct (t !! id) as [s|]; [|done].
      destruct (Z.gtb_spec (now1 - GithubProxy.createdAt s) 3600000),
               (Z.gtb_spec (now2 - GithubProxy.createdAt s) 3600000); try done; lia.
    + apply map_eq. intros id. rewrite !gh_sweep_lookup.
      destruct (t !! id) as [s|]; [|done].
      destruct (Z.gtb_spec (now2 - GithubProxy.createdAt s) 3600000); [done|].
      destruct (Z.gtb_spec (now1 - GithubProxy.createdAt s) 3600000); [lia | done].
    + apply map_subseteq_spec. intros id s Hs.
      apply gh_sweep_Some in Hs as [Hs Hage]. apply gh_sweep_Some. split; [done | lia].
Qed.

Lemma sweep_composes_witness :
  let t : gmap string LlmProxy.session :=
    {[ "old" := LlmProxy.Session [] 1600000000000;
       "new" := LlmProxy.Session [] 1700000000000 ]} in
  let g : gmap string GithubProxy.session :=
    {[ "old" := GithubProxy.Session "ghp_a" "classic" 1699990000000;
       "new" := GithubProxy.Session "ghp_b" "classic" 1700000000000 ]} in
  LlmProxy.sweep 1700000001000 (LlmProxy.sweep 1700000000000 t) =
    LlmProxy.sweep 1700000001000 t /\
  GithubProxy.sweep 1700000001000 (GithubProxy.sweep 1700000000000 g) =
    GithubProxy.sweep 1700000001000 g.
Proof.
  intros t g. destruct sweep_composes as (_ & Hvault & _ & Hgithub).
  split.
  - apply Hvault. lia.
  - apply Hgithub. lia.
Defined.

End sweep_algebra.

(** * Every request is answered *)

Section always_answers.
Import JS Runtime.


End always_answers.

Section github_answers.
Import JS Runtime.

(** X6.  The GitHub proxy answers every request: nothing escapes the
    handler, whatever the upstream does, and the response carries the CORS
    headers (and the JSON content type unless it is the body-less answer to
    [OPTIONS]).  The status is 200, 400, 401 or 500, or the status of an
    upstream answer outside 200..299. *)
Theorem github_always_answers (req : Request GithubProxy.fields) (e : Env)
    (w : World GithubProxy.session) :
  match (GithubProxy.serve req e w).1 with
  | Throw _ => False
  | Ret resp =>
      (if bool_decide (http_method req = "OPTIONS")
       then headers resp = corsHeaders /\ body resp = None /\ (GithubProxy.serve req e w).2 = w
       else headers resp = corsHeaders ++ [("Content-Type", "application/json")] /\
            body resp <> None) /\
      (status resp ∈ [200; 400; 401; 500] \/
       exists (rq : fetch_request) (r : reply),
         upstream e (length (wire w)) rq = Replied r /\ ok r = false /\
         status resp = up_status r)
  end.
Proof.
  unfold GithubProxy.serve. case_bool_decide as Hm.
  { simpl. repeat split; try done. left; set_solver. }
  unfold try_catch, bind, GithubProxy.cleanupSessions, Date_now, Map_update, req_json; simpl.
  destruct (content req) as [msg|f] eqn:Hc; simpl.
  { repeat split; try done. left; set_solver. }
  unfold GithubProxy.dispatch.
  repeat case_bool_decide;
    unfold GithubProxy.create_session, GithubProxy.destroy_session, GithubProxy.proxy,
      internal_error, bind, ret, throw, Map_get, Map_set, Map_delete, Date_now,
      generateSessionId, getRandomValues, fetch, response_json, GithubProxy.read_login; simpl;
    repeat (match goal with
            | |- context [given ?x] => destruct (given x)
            | |- context [@lookup _ _ (gmap _ _) _ ?k ?t] => destruct (t !! k) as [[]|]
            | |- context [upstream ?e ?k ?rq] => destruct (upstream e k rq) as [[]|] eqn:?
            | |- context [ok ?r] => destruct (ok r) eqn:?
            | |- context [match ?d with NotJson _ => _ | IsJson _ => _ end] => destruct d as [|[]]
            end; simpl);
    (split; [by split|]);
    first [left; set_solver | right; eexists _, _; split; [eassumption|]; by split].
Qed.

End github_answers.

(** * Session identifiers *)

Section hex_round_trip.
Import JS Runtime Invariants.

Lemma hexval_hexdigit (d : N) : (d < 16)%N -> hexval (hexdigit d) = Some d.
Proof.
  intros Hd. destruct d as [|p]; [done|].
  do 4 (destruct p as [p|p|]; try done); lia.
Qed.

Lemma unhex_byte (b : N) (r : string) :
  (b < 256)%N ->
  unhex (padStart2 (toString16 b) +:+ r) =
  match unhex r with Some rest => Some (b :: rest) | None => None end.
Proof.
  intros Hb. unfold toString16. destruct (N.ltb_spec b 16) as [Hlt|Hge].
  - change (unhex (String "0" (String (hexdigit b) r)) =
            match unhex r with Some rest => Some (b :: rest) | None => None end).
    cbn [unhex]. change (hexval "0") with (Some 0%N). rewrite hexval_hexdigit by done.
    destruct (unhex r); [|done]. repeat f_equal; lia.
  - change (unhex (String (hexdigit (b / 16)) (String (hexdigit (b mod 16)) r)) =
            match unhex r with Some rest => Some (b :: rest) | None => None end).
    cbn [unhex]. rewrite !hexval_hexdigit.
    + pose proof (N.div_mod b 16). destruct (unhex r); [|done]. repeat f_equal; lia.
    + apply N.mod_lt. lia.
    + apply N.Div0.div_lt_upper_bound. lia.
Qed.

Lemma random_bytes_small (e : Env) (k n : nat) :
  Forall (fun b => (b < 256)%N) (random_bytes e k n).
Proof.
  unfold random_bytes. apply Forall_fmap, Forall_forall. intros i _. simpl.
  apply N.mod_lt. lia.
Qed.

(** X7.  The hexadecimal spelling of [generateSessionId] loses nothing:
    the bytes can be read back from the identifier, so two identifiers are
    equal only when all 32 random bytes behind them are equal. *)
Theorem session_id_spells_its_bytes :
  (forall l : list N, Forall (fun b => (b < 256)%N) l -> unhex (hex l) = Some l) /\
  (forall e k, unhex (minted e k) = Some (random_bytes e k 32)) /\
  (forall e1 e2 k1 k2,
     minted e1 k1 = minted e2 k2 <-> random_bytes e1 k1 32 = random_bytes e2 k2 32).
Proof.
  assert (H : forall l : list N, Forall (fun b => (b < 256)%N) l -> unhex (hex l) = Some l).
  { induction 1 as [|b l Hb _ IH]; [done|].
    change (hex (b :: l)) with (padStart2 (toString16 b) +:+ hex l).
    by rewrite unhex_byte, IH. }
  split; [exact H|]. split.
  - intros e k. apply H, random_bytes_small.
  - intros e1 e2 k1 k2. split; [|by unfold minted; intros ->].
    intros Heq. apply (f_equal unhex) in Heq.
    unfold minted in Heq. rewrite !H in Heq by apply random_bytes_small. congruence.
Qed.

Lemma session_id_spells_its_bytes_witness :
  unhex (hex [0; 7; 16; 255]%N) = Some [0; 7; 16; 255]%N.
Proof.
  destruct session_id_spells_its_bytes as (Hback & _).
  apply Hback. by repeat constructor.
Defined.

End hex_round_trip.

(** * The reported lifetime *)

Section lifetime.
Import JS Runtime LlmProxy.

(** X8.  The lifetime that [get_session] reports for a live session is the
    time left until the session turns 24 hours old, rounded up to whole
    seconds (and 0 once that moment has passed): it never understates the
    time left, and overstates it by less than a second. *)
Theorem get_session_lifetime_rounds_up (e : Env) (w : World session)
    (a p k : option string) (id : string) (s : session) :
  given a = Some id ->
  sweep (clock e (ticks w)) (table w) !! id = Some s ->
  let left := Z.max 0 (86400000 - (clock e (S (ticks w)) - createdAt s)) in
  exists expiresIn : Z,
    (serve (POST (Fields (Some "get_session") a p k)) e w).1 =
      Ret (json_response 200
             (JObj [ ("sessionId", JStr id);
                     ("providers", strings (Object_keys (keys s)));
                     ("expiresIn", JNum expiresIn) ])) /\
    left <= 1000 * expiresIn < left + 1000.
Proof.
  intros Ha Hs left. eexists. split.
  - by rewrite (llm_get_session_live a p k e w id s).
  - unfold left. set (age := clock e (S (ticks w)) - createdAt s).
    pose proof (Z.div_mod age 1000 ltac:(lia)) as Hdiv.
    pose proof (Z.mod_pos_bound age 1000 ltac:(lia)) as Hmod.
    lia.
Qed.

Lemma get_session_lifetime_rounds_up_witness :
  let w := mkWorld {[ "s1" := Session [] 1700000000000 ]} 0 0 [] in
  exists expiresIn : Z,
    (serve (POST (Fields (Some "get_session") (Some "s1") None None)) Demo.env w).1 =
      Ret (json_response 200
             (JObj [ ("sessionId", JStr "s1");
                     ("providers", JArr []);
                     ("expiresIn", JNum expiresIn) ])) /\
    expiresIn = 86400.
Proof.
  intros w.
  destruct (get_session_lifetime_rounds_up Demo.env w (Some "s1") None None "s1"
              (Session [] 1700000000000)) as (x & Hrun & Hlo & Hhi);
    [reflexivity | by vm_compute |].
  exists x. split; [exact Hrun|].
  match type of Hlo with ?l <= _ => change l with 86399500 in Hlo, Hhi end.
  lia.
Defined.

End lifetime.

(** * What the tables hold *)

Section vault_invariant.
Import JS Runtime LlmProxy Invariants.

Lemma given_inv (s : option string) (v : string) :
  given s = Some v -> s = Some v /\ v <> EmptyString.
Proof. unfold given. destruct s as [[|c r]|]; simpl; intros [= <-]; by split. Qed.

Lemma minted_nonempty (e : Env) (k : nat) : minted e k <> EmptyString.
Proof. intros H. pose proof (minted_length e k) as Hl. by rewrite H in Hl. Qed.

Lemma obj_set_names (o : object) (p k : string) :
  (obj_set o p k).*1 = if bool_decide (p ∈ o.*1) then o.*1 else o.*1 ++ [p].
Proof.
  induction o as [|[p' k'] o IH]; [done|]. cbn [obj_set]. rewrite !fmap_cons. simpl.
  destruct (decide (p' = p)) as [->|Hne].
  - rewrite fmap_cons. simpl. by rewrite bool_decide_eq_true_2 by set_solver.
  - rewrite fmap_cons, IH. simpl. case_bool_decide as Hin.
    + by rewrite bool_decide_eq_true_2 by set_solver.
    + by rewrite bool_decide_eq_false_2 by set_solver.
Qed.

Lemma obj_set_ok (s : session) (p k : string) :
  p <> EmptyString -> k <> EmptyString -> vault_session_ok s ->
  vault_session_ok (Session (obj_set (keys s) p k) (createdAt s)).
Proof.
  intros Hp Hk [Hnd Hall]. split; simpl.
  - rewrite obj_set_names. case_bool_decide as Hin; [done|].
    apply NoDup_app. split; [done|]. split; [set_solver | apply NoDup_singleton].
  - clear Hnd. induction Hall as [|[p' k'] o Hx Hrest IH]; simpl.
    + by repeat constructor.
    + destruct (decide (p' = p)); constructor; done.
Qed.

Lemma obj_delete_elem (o : object) (p : string) (kv : string * string) :
  kv ∈ obj_delete o p <-> kv ∈ o /\ kv.1 <> p.
Proof.
  unfold obj_delete. rewrite !list_elem_of_In, filter_In, negb_true_iff.
  by rewrite bool_decide_eq_false.
Qed.

Lemma obj_delete_NoDup (o : object) (p : string) :
  NoDup o.*1 -> NoDup (obj_delete o p).*1.
Proof.
  induction o as [|[p' k'] o IH]; [done|].
  rewrite fmap_cons, NoDup_cons. intros [Hnotin Hnd].
  change (obj_delete ((p', k') :: o) p)
    with (if negb (bool_decide (p' = p)) then (p', k') :: obj_delete o p else obj_delete o p).
  destruct (negb (bool_decide (p' = p))); [|by apply IH].
  rewrite fmap_cons, NoDup_cons. split; [|by apply IH].
  intros Hin. apply Hnotin. apply list_elem_of_fmap in Hin as (kv & Hkv & Hin).
  apply obj_delete_elem in Hin as [Hin _]. apply list_elem_of_fmap. eauto.
Qed.

Lemma obj_delete_ok (s : session) (p : string) :
  vault_session_ok s -> vault_session_ok (Session (obj_delete (keys s) p) (createdAt s)).
Proof.
  intros [Hnd Hall]. split; simpl.
  - by apply obj_delete_NoDup.
  - apply Forall_forall. intros kv Hkv. apply obj_delete_elem in Hkv as [Hkv _].
    rewrite Forall_forall in Hall. by apply Hall.
Qed.

Lemma vault_ok_sweep now t : vault_table_ok t -> vault_table_ok (sweep now t).
Proof. intros H id s Hs. apply llm_sweep_Some in Hs as [Hs _]. eauto. Qed.

Lemma vault_ok_insert t id s :
  id <> EmptyString -> vault_session_ok s -> vault_table_ok t ->
  vault_table_ok (<[id := s]> t).
Proof.
  intros Hid Hs H id' s' Hs'. apply lookup_insert_Some in Hs' as [[<- <-]|[_ Hs']]; eauto.
Qed.

Lemma vault_ok_delete t id : vault_table_ok t -> vault_table_ok (delete id t).
Proof. intros H id' s Hs. apply lookup_delete_Some in Hs as [_ Hs]. eauto. Qed.

Lemma vault_session_ok_empty now : vault_session_ok (Session [] now).
Proof. split; simpl; constructor. Qed.

Lemma vault_serve_ok (req : Request fields) (e : Env) (w : World session) :
  vault_table_ok (table w) -> vault_table_ok (table (serve req e w).2).
Proof.
  intros H. unfold serve. case_bool_decide; [done|].
  pose proof (vault_ok_sweep (clock e (ticks w)) _ H) as Hsw.
  unfold try_catch, bind, cleanupSessions, Date_now, Map_update, req_json; simpl.
  destruct (content req) as [msg|f]; simpl; [done|].
  unfold dispatch.
  repeat case_bool_decide;
    unfold get_session, set_key, remove_key, check_key, destroy_session,
      bind, ret, Map_get, Map_set, Map_delete, Date_now, generateSessionId,
      getRandomValues; simpl;
    repeat (match goal with
            | |- context [given ?x] =>
                let E := fresh "E" in
                destruct (given x) eqn:E; [apply given_inv in E as [_ ?]|]
            | |- context [@lookup _ _ (gmap _ _) _ ?k ?t] =>
                let E := fresh "E" in destruct (t !! k) eqn:E
            end; simpl);
    rewrite ?insert_insert_eq;
    try done;
    try (apply vault_ok_delete; done);
    try (apply vault_ok_insert; try done;
         first [ apply minted_nonempty
               | apply vault_session_ok_empty
               | apply obj_delete_ok; eapply Hsw; eassumption
               | apply obj_set_ok; try done; eapply Hsw; eassumption
               | apply (obj_set_ok (Session [] _)); try done; apply vault_session_ok_empty ]).
Qed.

Lemma vault_reachable_ok (e : Env) (w : World session) :
  reachable e w -> vault_table_ok (table w).
Proof.
  induction 1 as [|w req _ IH]; [|by apply vault_serve_ok].
  intros id s Hs. cbn in Hs. by rewrite lookup_empty in Hs.
Qed.

End vault_invariant.

Section vault_listing.
Import JS Runtime LlmProxy Invariants.

Lemma insert_sorted_perm (x : N * string) (l : list (N * string)) :
  insert_sorted x l ≡ₚ x :: l.
Proof.
  induction l as [|y l IH]; [done|]. simpl.
  destruct (x.1 <? y.1)%N; [done|]. rewrite IH. apply Permutation_swap.
Qed.

(** [Object.keys] lists every own property name exactly once. *)
Lemma Object_keys_perm (o : object) : Object_keys o ≡ₚ o.*1.
Proof.
  unfold Object_keys. set (names := o.*1). clearbody names.
  assert (Hsort : forall l, foldr insert_sorted [] l ≡ₚ l).
  { induction l as [|x l IH]; [done|]. simpl. by rewrite insert_sorted_perm, IH. }
  rewrite Hsort. clear Hsort.
  induction names as [|k r IH]; [done|]. simpl.
  destruct (array_index k) as [n|]; simpl.
  - by rewrite IH.
  - by rewrite <- Permutation_middle, IH.
Qed.



(** X10.  In every state the vault can reach, [check_key] for a live
    session answers true exactly when the provider is in that session's
    provider list or its name is the name of a member of
    [Object.prototype]. *)
Theorem check_key_agrees_with_listing (e : Env) (w : World session)
    (a b k : option string) (id p : string) (s : session) :
  reachable e w ->
  given a = Some id -> given b = Some p ->
  sweep (clock e (ticks w)) (table w) !! id = Some s ->
  (serve (POST (Fields (Some "check_key") a b k)) e w).1 =
  Ret (json_response 200
         (JObj [ ("hasKey",
                  JBool (bool_decide (p ∈ Object_keys (keys s) \/ p ∈ Object_prototype))) ])).
Proof.
  intros Hreach Ha Hb Hs.
  apply given_inv in Hb as [-> Hp].
  rewrite (llm_check_key_run a id p k e w Ha Hp), Hs. simpl.
  assert (Hread : value_truthy (obj_get (keys s) p) =
                  bool_decide (p ∈ Object_keys (keys s) \/ p ∈ Object_prototype));
    [|by rewrite Hread].
  rewrite obj_get_truthy.
  pose proof Hs as Hs'. apply llm_sweep_Some in Hs' as [Hs' _].
  destruct (vault_reachable_ok e w Hreach id s Hs') as (_ & _ & Hall).
  destruct (own (keys s) p) as [v|] eqn:Hown.
  - assert (Hlisted : p ∈ Object_keys (keys s)) by (apply Object_keys_elem; by rewrite Hown).
    rewrite bool_decide_eq_true_2 by (by left).
    assert (Hv : v <> EmptyString).
    { unfold own in Hown. destruct (List.find _ _) as [[p' v']|] eqn:Hfind; [|done].
      simpl in Hown. injection Hown as ->.
      apply find_some in Hfind as [Hin _]. rewrite Forall_forall in Hall.
      apply list_elem_of_In in Hin. by destruct (Hall _ Hin). }
    by destruct v.
  - assert (Hnot : p ∉ Object_keys (keys s)).
    { rewrite Object_keys_elem, Hown. by intros [? ?]. }
    apply bool_decide_ext. naive_solver.
Qed.

Lemma check_key_agrees_with_listing_witness :
  let w1 := (serve (POST (Fields (Some "set_key") (Some "s1") (Some "openai") (Some "sk-demo-1")))
               Demo.env boot).2 in
  let check p := (serve (POST (Fields (Some "check_key") (Some "s1") (Some p) None))
                    Demo.env w1).1 in
  check "openai" = Ret (json_response 200 (JObj [ ("hasKey", JBool true) ])) /\
  check "groq" = Ret (json_response 200 (JObj [ ("hasKey", JBool false) ])) /\
  check "valueOf" = Ret (json_response 200 (JObj [ ("hasKey", JBool true) ])).
Proof.
  intros w1 check.
  pose proof (fun p Hp => check_key_agrees_with_listing Demo.env w1 (Some "s1") (Some p) None
                "s1" p (Session [("openai", "sk-demo-1")] 1700000000500)
                (reach_serve _ _ _ (reach_boot _)) eq_refl Hp) as H.
  split; [|split]; unfold check.
  - rewrite (H "openai" eq_refl); [reflexivity | by vm_compute].
  - rewrite (H "groq" eq_refl); [reflexivity | by vm_compute].
  - rewrite (H "valueOf" eq_refl); [reflexivity | by vm_compute].
Defined.

End vault_listing.

Section github_invariant.
Import JS Runtime GithubProxy Invariants.

Lemma or_default_nonempty (a : option string) (d : string) :
  d <> EmptyString -> or_default a d <> EmptyString.
Proof. by destruct a as [[|c r]|]. Qed.

Lemma minted_has_shape (e : Env) (k : nat) : minted_shape (minted e k).
Proof. split; [apply minted_length | apply hex_chars_only]. Qed.

Lemma github_ok_sweep now t : github_table_ok t -> github_table_ok (sweep now t).
Proof. intros H id s Hs. apply gh_sweep_Some in Hs as [Hs _]. eauto. Qed.

Lemma github_ok_delete t id : github_table_ok t -> github_table_ok (delete id t).
Proof. intros H id' s Hs. apply lookup_delete_Some in Hs as [_ Hs]. eauto. Qed.

Lemma github_ok_insert e k t tok ty now :
  tok <> EmptyString -> github_table_ok t ->
  github_table_ok (<[minted e k := Session tok (or_default ty "classic") now]> t).
Proof.
  intros Htok H id s Hs. apply lookup_insert_Some in Hs as [[<- <-]|[_ Hs]]; [|eauto].
  split; [apply minted_has_shape|]. split; [done|]. by apply or_default_nonempty.
Qed.

Lemma github_serve_ok (req : Request fields) (e : Env) (w : World session) :
  github_table_ok (table w) -> github_table_ok (table (serve req e w).2).
Proof.
  intros H. unfold serve. case_bool_decide; [done|].
  pose proof (github_ok_sweep (clock e (ticks w)) _ H) as Hsw.
  unfold try_catch, bind, cleanupSessions, Date_now, Map_update, req_json; simpl.
  destruct (content req) as [msg|f]; simpl; [done|].
  unfold dispatch.
  repeat case_bool_decide;
    unfold create_session, destroy_session, proxy,
      internal_error, bind, ret, throw, Map_get, Map_set, Map_delete, Date_now,
      generateSessionId, getRandomValues, fetch, response_json, read_login; simpl;
    repeat (match goal with
            | |- context [given ?x] =>
                let E := fresh "E" in
                destruct (given x) eqn:E; [apply given_inv in E as [_ ?]|]
            | |- context [@lookup _ _ (gmap _ _) _ ?k ?t] => destruct (t !! k) as [[]|]
            | |- context [upstream ?e ?k ?rq] => destruct (upstream e k rq) as [[]|]
            | |- context [ok ?r] => destruct (ok r)
            | |- context [match ?d with NotJson _ => _ | IsJson _ => _ end] => destruct d as [|[]]
            end; simpl);
    try done;
    try (apply github_ok_delete; done);
    try (apply github_ok_insert; done).
Qed.

(** X11.  In every state the GitHub proxy can reach, every session id is
    one that [generateSessionId] made (64 hexadecimal digits), and no
    stored token or token type is empty. *)
Theorem github_store_well_formed (e : Env) (w : World session) (id : string) (s : session) :
  github_reachable e w -> table w !! id = Some s ->
  String.length id = 64%nat /\
  Forall (fun c => c ∈ hex_chars) (list_ascii_of_string id) /\
  token s <> EmptyString /\
  tokenType s <> EmptyString.
Proof.
  intros Hreach. revert id s.
  induction Hreach as [|w req _ IH]; intros id s Hs.
  - cbn in Hs. by rewrite lookup_empty in Hs.
  - assert (Hok : github_table_ok (table w)).
    { intros id' s' Hs'. destruct (IH id' s' Hs') as (? & ? & ? & ?). by repeat split. }
    destruct (github_serve_ok req e w Hok id s Hs) as ([? ?] & ? & ?). by repeat split.
Qed.

Lemma github_store_well_formed_witness :
  let w1 := (serve (POST (Fields (Some "create_session") (Some "ghp_valid") (Some "")
                            None None None None)) Demo.env boot).2 in
  table w1 !! minted Demo.env 0 = Some (Session "ghp_valid" "classic" 1700000000500) /\
  String.length (minted Demo.env 0) = 64%nat.
Proof.
  intros w1.
  assert (Hs : table w1 !! minted Demo.env 0 =
               Some (Session "ghp_valid" "classic" 1700000000500)) by (by vm_compute).
  split; [exact Hs|].
  destruct (github_store_well_formed Demo.env w1 (minted Demo.env 0) _
              (github_serve _ _ _ (github_boot _)) Hs) as (Hlen & _).
  exact Hlen.
Defined.

End github_invariant.

(** * Sessions do not interfere *)

Section isolation.
Import JS Runtime.

Local Abbreviation vault_swept e w := (LlmProxy.sweep (clock e (ticks w)) (table w)).
Local Abbreviation github_swept e w := (GithubProxy.sweep (clock e (ticks w)) (table w)).

Ltac vault_cases :=
  rewrite llm_serve_post; unfold try_catch, LlmProxy.dispatch;
  repeat case_bool_decide;
    unfold LlmProxy.get_session, LlmProxy.set_key, LlmProxy.remove_key, LlmProxy.check_key,
      LlmProxy.destroy_session, bind, ret, Map_get, Map_set, Map_delete, Date_now,
      generateSessionId, getRandomValues; simpl;
    repeat (match goal with
            | |- context [given ?x] => let E := fresh "E" in destruct (given x) eqn:E
            | |- context [@lookup _ _ (gmap _ _) _ ?k (LlmProxy.sweep ?n ?t)] =>
                let E := fresh "E" in destruct (LlmProxy.sweep n t !! k) as [[]|] eqn:E
            end; simpl).

Ltac github_cases :=
  rewrite gh_serve_post; unfold try_catch, GithubProxy.dispatch;
  repeat case_bool_decide;
    unfold GithubProxy.create_session, GithubProxy.destroy_session, GithubProxy.proxy,
      internal_error, bind, ret, throw, Map_get, Map_set, Map_delete, Date_now,
      generateSessionId, getRandomValues, fetch, response_json, GithubProxy.read_login; simpl;
    repeat (match goal with
            | |- context [given ?x] => let E := fresh "E" in destruct (given x) eqn:E
            | |- context [@lookup _ _ (gmap _ _) _ ?k (GithubProxy.sweep ?n ?t)] =>
                let E := fresh "E" in destruct (GithubProxy.sweep n t !! k) as [[]|] eqn:E
            | |- context [upstream ?e ?k ?rq] => destruct (upstream e k rq) as [[]|]
            | |- context [ok ?r] => destruct (ok r)
            | |- context [match ?d with NotJson _ => _ | IsJson _ => _ end] => destruct d as [|[]]
            end; simpl).

(** X12.  A request touches at most the session it names and the session
    it creates: every other entry of the table comes out of the request as
    the sweep left it.  This holds for both brokers. *)
Theorem requests_touch_only_their_session :
  (forall (f : LlmProxy.fields) e w id,
     given (LlmProxy.sessionId f) <> Some id -> id <> minted e (draws w) ->
     table (LlmProxy.serve (POST f) e w).2 !! id = vault_swept e w !! id) /\
  (forall (f : GithubProxy.fields) e w id,
     given (GithubProxy.sessionId f) <> Some id -> id <> minted e (draws w) ->
     table (GithubProxy.serve (POST f) e w).2 !! id = github_swept e w !! id).
Proof.
  split.
  - intros f e w id Hsid Hfresh. unfold minted in Hfresh. vault_cases;
      rewrite ?lookup_insert_ne, ?lookup_delete_ne by congruence; done.
  - intros f e w id Hsid Hfresh. unfold minted in Hfresh. github_cases;
      rewrite ?lookup_insert_ne, ?lookup_delete_ne by congruence; done.
Qed.

Lemma requests_touch_only_their_session_witness :
  let other := LlmProxy.Session [("openai", "sk-other")] 1700000000000 in
  let w := mkWorld {[ "s1" := LlmProxy.Session [] 1700000000000; "s2" := other ]} 0 0 [] in
  table (LlmProxy.serve
           (POST (LlmProxy.Fields (Some "set_key") (Some "s1") (Some "openai") (Some "sk-mine")))
           Demo.env w).2 !! "s2" = Some other /\
  table (LlmProxy.serve
           (POST (LlmProxy.Fields (Some "destroy_session") (Some "s1") None None))
           Demo.env w).2 !! "s2" = Some other.
Proof.
  intros other w. destruct requests_touch_only_their_session as [Hvault _].
  split.
  - rewrite Hvault; [by vm_compute | done | by vm_compute].
  - rewrite Hvault; [by vm_compute | done | by vm_compute].
Defined.

(** X13.  Using a session never renews it: whatever a request does to a
    session that stays in the table, the creation time is the one it had;
    in the GitHub proxy the whole entry, token included, is the one it
    was.  (A freshly made id that collides with an existing one is the only
    exception.) *)
Theorem activity_never_renews_a_session :
  (forall (f : LlmProxy.fields) e w id s s',
     vault_swept e w !! id = Some s ->
     table (LlmProxy.serve (POST f) e w).2 !! id = Some s' ->
     id <> minted e (draws w) ->
     LlmProxy.createdAt s' = LlmProxy.createdAt s) /\
  (forall (f : GithubProxy.fields) e w id s s',
     github_swept e w !! id = Some s ->
     table (GithubProxy.serve (POST f) e w).2 !! id = Some s' ->
     id <> minted e (draws w) ->
     s' = s).
Proof.
  split.
  - intros f e w id s s' Hs. vault_cases; intros Hs' Hfresh; unfold minted in Hfresh;
      repeat match goal with
             | H : <[?k := _]> _ !! id = Some _ |- _ =>
                 apply lookup_insert_Some in H as [[<- <-]|[? H]]
             | H : delete _ _ !! id = Some _ |- _ => apply lookup_delete_Some in H as [? H]
             end; simplify_eq/=; try congruence.
  - intros f e w id s s' Hs. github_cases; intros Hs' Hfresh; unfold minted in Hfresh;
      repeat match goal with
             | H : <[?k := _]> _ !! id = Some _ |- _ =>
                 apply lookup_insert_Some in H as [[<- <-]|[? H]]
             | H : delete _ _ !! id = Some _ |- _ => apply lookup_delete_Some in H as [? H]
             end; simplify_eq/=; try congruence.
Qed.

Lemma activity_never_renews_a_session_witness :
  let w := mkWorld {[ "s1" := LlmProxy.Session [] 1700000000000 ]} 0 0 [] in
  let req := POST (LlmProxy.Fields (Some "set_key") (Some "s1") (Some "openai") (Some "sk-1")) in
  let s' := LlmProxy.Session [("openai", "sk-1")] 1700000000000 in
  table (LlmProxy.serve req Demo.env w).2 !! "s1" = Some s' /\
  LlmProxy.createdAt s' = 1700000000000.
Proof.
  intros w req s'. destruct activity_never_renews_a_session as [Hvault _].
  assert (Hs' : table (LlmProxy.serve req Demo.env w).2 !! "s1" = Some s') by (by vm_compute).
  split; [exact Hs'|].
  apply (Hvault (LlmProxy.Fields (Some "set_key") (Some "s1") (Some "openai") (Some "sk-1"))
           Demo.env w "s1" (LlmProxy.Session [] 1700000000000) s');
    [by vm_compute | exact Hs' | by vm_compute].
Defined.

End isolation.

(** * Provider lists *)

Section provider_lists.
Import JS Runtime LlmProxy.

Local Abbreviation swept e w := (sweep (clock e (ticks w)) (table w)).

(** X14.  The provider list in the response tracks the keys of the
    session: after [set_key] it holds the provider just set and every
    provider listed before, and nothing else; after [remove_key] it holds
    every provider listed before except the removed one.  In both cases the
    keys of the other providers are stored unchanged. *)
Theorem provider_list_tracks_keys (e : Env) (w : World session)
    (a : option string) (id p k : string) (s : session) :
  given a = Some id -> p <> EmptyString -> k <> EmptyString ->
  swept e w !! id = Some s ->
  let set := serve (POST (Fields (Some "set_key") a (Some p) (Some k))) e w in
  let remove := serve (POST (Fields (Some "remove_key") a (Some p) (Some k))) e w in
  exists (listed listed' : list string) (s1 s2 : session),
    set.1 = Ret (json_response 200
                   (JObj [ ("success", JBool true); ("providers", strings listed) ])) /\
    (forall q, q ∈ listed <-> q = p \/ q ∈ Object_keys (keys s)) /\
    table set.2 !! id = Some s1 /\
    own (keys s1) p = Some k /\
    (forall q, q <> p -> own (keys s1) q = own (keys s) q) /\
    remove.1 = Ret (json_response 200
                      (JObj [ ("success", JBool true); ("providers", strings listed') ])) /\
    (forall q, q ∈ listed' <-> q <> p /\ q ∈ Object_keys (keys s)) /\
    table remove.2 !! id = Some s2 /\
    own (keys s2) p = None /\
    (forall q, q <> p -> own (keys s2) q = own (keys s) q).
Proof.
  intros Ha Hp Hk Hs set remove. unfold set, remove.
  rewrite (llm_set_key_known a id p k s e w Ha Hp Hk Hs).
  rewrite (llm_remove_key_known a id p s e w Ha Hp Hs).
  eexists _, _, _, _. simpl. rewrite !lookup_insert_eq.
  split; [reflexivity|]. split; [|split; [reflexivity|]].
  { intros q. rewrite !Object_keys_elem. destruct (decide (q = p)) as [->|Hq].
    - rewrite own_obj_set_eq. naive_solver.
    - rewrite own_obj_set_ne by done. naive_solver. }
  simpl. split; [apply own_obj_set_eq|].
  split; [intros q Hq; by apply own_obj_set_ne|].
  split; [reflexivity|]. split; [|split; [reflexivity|]].
  { intros q. rewrite !Object_keys_elem. destruct (decide (q = p)) as [->|Hq].
    - rewrite own_obj_delete_eq. split; [by intros [? ?] | by intros [? _]].
    - rewrite own_obj_delete_ne by done. naive_solver. }
  simpl. split; [apply own_obj_delete_eq|]. intros q Hq. by apply own_obj_delete_ne.
Qed.

Lemma provider_list_tracks_keys_witness :
  let w := mkWorld {[ "s1" := Session [("openai", "sk-1"); ("groq", "gsk-2")] 1700000000000 ]}
             0 0 [] in
  (serve (POST (Fields (Some "set_key") (Some "s1") (Some "mistral") (Some "m-3"))) Demo.env w).1 =
    Ret (json_response 200
           (JObj [ ("success", JBool true);
                   ("providers", strings ["openai"; "groq"; "mistral"]) ])) /\
  exists listed' : list string,
    (serve (POST (Fields (Some "remove_key") (Some "s1") (Some "openai") (Some "m-3")))
       Demo.env w).1 =
      Ret (json_response 200
             (JObj [ ("success", JBool true); ("providers", strings listed') ])) /\
    ("openai" ∉ listed') /\ ("groq" ∈ listed').
Proof.
  intros w. split; [by vm_compute|].
  destruct (provider_list_tracks_keys Demo.env w (Some "s1") "s1" "openai" "m-3"
              (Session [("openai", "sk-1"); ("groq", "gsk-2")] 1700000000000))
    as (listed & listed' & s1 & s2 & _ & _ & _ & _ & _ & Hrun & Hlisted & _);
    [reflexivity | done | done | by vm_compute |].
  exists listed'. split; [exact Hrun|]. split.
  - rewrite Hlisted. by intros [? _].
  - rewrite Hlisted. split; [done|]. by refine (bool_decide_unpack _ _).
Defined.

End provider_lists.

(** * The life of a GitHub session *)

Section life_cycle.
Import JS Runtime GithubProxy.

Local Abbreviation swept e w := (sweep (clock e (ticks w)) (table w)).

(** X15.  The life of a GitHub session.  Once [create_session] has
    accepted a token, a [proxy] request under the returned id, made within
    the hour, sends exactly that token to the upstream; and after
    [destroy_session] of that id, a [proxy] request under it is answered
    with 401 [Invalid or expired session] and causes no outbound call. *)
Theorem session_life_cycle (e : Env) (w : World session)
    (tok ty : option string) (t : string) (r : reply) (userData : json)
    (x : string) (m : option string) (b : option json) :
  given tok = Some t ->
  upstream e (length (wire w)) (verify_request t) = Replied r ->
  ok r = true -> up_body r = IsJson userData -> userData <> JNull ->
  x <> EmptyString ->
  let id := minted e (draws w) in
  let w1 := (serve (POST (Fields (Some "create_session") tok ty None None None None)) e w).2 in
  let call := POST (Fields (Some "proxy") None None (Some id) (Some x) m b) in
  let w2 := (serve (POST (Fields (Some "destroy_session") None None (Some id) None None None))
               e w1).2 in
  (clock e (ticks w1) - clock e (S (ticks w)) <= 3600000 ->
   exists rq : fetch_request,
     wire (serve call e w1).2 = wire w1 ++ [rq] /\
     rq_url rq = fullUrl x /\
     ("Authorization", "Bearer " +:+ t) ∈ rq_headers rq) /\
  (serve call e w2).1 = Ret (json_response 401 (error_body "Invalid or expired session")) /\
  wire (serve call e w2).2 = wire w2.
Proof.
  intros Htok Hup Hok Hbody Hnull Hx id w1 call w2.
  assert (Hid : given (Some id) = Some id) by apply given_Some, minted_nonempty.
  assert (Hgx : given (Some x) = Some x) by by apply given_Some.
  assert (Hw1 : table w1 !! id =
                Some (Session t (or_default ty "classic") (clock e (S (ticks w))))).
  { unfold w1. rewrite (gh_create_accepted tok ty None None None None e w t r userData) by done.
    simpl. by rewrite lookup_insert_eq. }
  split.
  - intros Hage. eexists. split; [|split].
    + unfold call. eapply gh_proxy_wire; [exact Hid | | exact Hgx].
      apply gh_sweep_Some. split; [exact Hw1 | exact Hage].
    + reflexivity.
    + simpl. set_solver.
  - assert (Hgone : swept e w2 !! id = None).
    { rewrite gh_sweep_lookup. unfold w2. rewrite gh_destroy_run, Hid. simpl.
      by rewrite lookup_delete_eq. }
    unfold call.
    by rewrite (gh_proxy_no_session None None (Some id) (Some x) m b e w2 id Hid Hgone).
Qed.

Lemma session_life_cycle_witness :
  let id := minted Demo.env 0 in
  let w1 := (serve (POST (Fields (Some "create_session") (Some "ghp_valid") None
                            None None None None)) Demo.env boot).2 in
  let call := POST (Fields (Some "proxy") None None (Some id) (Some "/user") None None) in
  let w2 := (serve (POST (Fields (Some "destroy_session") None None (Some id) None None None))
               Demo.env w1).2 in
  (exists rq : fetch_request,
     wire (serve call Demo.env w1).2 = wire w1 ++ [rq] /\
     rq_url rq = "https://api.github.com/user" /\
     ("Authorization", "Bearer ghp_valid") ∈ rq_headers rq) /\
  (serve call Demo.env w2).1 =
    Ret (json_response 401 (error_body "Invalid or expired session")).
Proof.
  intros id w1 call w2.
  destruct (session_life_cycle Demo.env boot (Some "ghp_valid") None "ghp_valid"
              (Reply 200 Demo.rate_headers (IsJson (JObj [("login", JStr "octocat")])))
              (JObj [("login", JStr "octocat")]) "/user" None None)
    as (Hlive & Hgone & _); [reflexivity | reflexivity | reflexivity | reflexivity
                            | done | done |].
  split; [|exact Hgone]. apply Hlive. by vm_compute.
Defined.

End life_cycle.

(** * Failed requests *)

Section atomic_errors.
Import JS Runtime.

Local Abbreviation vault_swept e w := (LlmProxy.sweep (clock e (ticks w)) (table w)).
Local Abbreviation github_swept e w := (GithubProxy.sweep (clock e (ticks w)) (table w)).



End atomic_errors.

(** * Edge cases of the handlers *)

Section edges.
Import JS Runtime.

Local Abbreviation vault_swept e w := (LlmProxy.sweep (clock e (ticks w)) (table w)).
Local Abbreviation github_swept e w := (GithubProxy.sweep (clock e (ticks w)) (table w)).



(** X18.  An expired session is not revived.  When the session named in the
    request is older than 24 hours, [set_key] starts a new session under
    that id, with a new creation time and the submitted key as its only
    key, and [get_session] answers with a freshly made id; the old keys are
    gone in both cases. *)
Theorem expired_session_is_not_revived (e : Env) (w : World LlmProxy.session)
    (id p k : string) (s : LlmProxy.session) :
  id <> EmptyString -> p <> EmptyString -> k <> EmptyString ->
  table w !! id = Some s ->
  86400000 < clock e (ticks w) - LlmProxy.createdAt s ->
  LlmProxy.serve (POST (LlmProxy.Fields (Some "set_key") (Some id) (Some p) (Some k))) e w =
    (Ret (json_response 200
            (JObj [ ("success", JBool true); ("providers", JArr [JStr p]) ])),
     mkWorld (<[id := LlmProxy.Session [(p, k)] (clock e (S (ticks w)))]> (vault_swept e w))
             (S (S (ticks w))) (draws w) (wire w)) /\
  LlmProxy.serve (POST (LlmProxy.Fields (Some "get_session") (Some id) None None)) e w =
    (Ret (json_response 200
            (JObj [ ("sessionId", JStr (minted e (draws w)));
                    ("providers", JArr []);
                    ("expiresIn", JNum 86400) ])),
     mkWorld (<[minted e (draws w) := LlmProxy.Session [] (clock e (S (ticks w)))]>
                (vault_swept e w))
             (S (S (ticks w))) (S (draws w)) (wire w)).
Proof.
  intros Hid Hp Hk Hs Hage.
  assert (Hgone : vault_swept e w !! id = None).
  { rewrite llm_sweep_lookup, Hs.
    destruct (Z.gtb_spec (clock e (ticks w) - LlmProxy.createdAt s) 86400000); [done | lia]. }
  split.
  - by apply llm_set_key_unknown; [apply given_Some|..].
  - apply llm_get_session_fresh. right. exists id. split; [by apply given_Some | done].
Qed.

Lemma expired_session_is_not_revived_witness :
  let old := LlmProxy.Session [("openai", "sk-old")] 1600000000000 in
  let w := mkWorld {[ "s1" := old ]} 0 0 [] in
  table (LlmProxy.serve
           (POST (LlmProxy.Fields (Some "set_key") (Some "s1") (Some "groq") (Some "gsk-new")))
           Demo.env w).2 !! "s1" =
    Some (LlmProxy.Session [("groq", "gsk-new")] 1700000000500) /\
  (LlmProxy.serve (POST (LlmProxy.Fields (Some "get_session") (Some "s1") None None))
     Demo.env w).1 =
    Ret (json_response 200
           (JObj [ ("sessionId", JStr (minted Demo.env 0));
                   ("providers", JArr []);
                   ("expiresIn", JNum 86400) ])).
Proof.
  intros old w.
  destruct (expired_session_is_not_revived Demo.env w "s1" "groq" "gsk-new" old)
    as [Hset Hget]; [done | done | done | by vm_compute | by vm_compute |].
  split.
  - rewrite Hset. simpl. by rewrite lookup_insert_eq.
  - by rewrite Hget.
Defined.

(** X19.  What [proxy] forwards.  For a live session and a non-empty
    endpoint the outbound call uses the caller's method, or [GET] when the
    method is missing or empty.  A body is sent only when the request's
    body is truthy: it is then the JSON text of that body and the call
    carries [Content-Type: application/json]; a body of [null], [false], [0]
    or the empty string is dropped together with that header. *)
Theorem proxy_call_shape (e : Env) (w : World GithubProxy.session)
    (tok ty a ep m : option string) (b : option json) (id x : string)
    (s : GithubProxy.session) :
  given a = Some id -> github_swept e w !! id = Some s -> given ep = Some x ->
  exists rq : fetch_request,
    wire (GithubProxy.serve (POST (GithubProxy.Fields (Some "proxy") tok ty a ep m b)) e w).2 =
      wire w ++ [rq] /\
    rq_method rq = match given m with Some v => v | None => "GET" end /\
    ("Accept", "application/vnd.github.v3+json") ∈ rq_headers rq /\
    ("User-Agent", "Lovable-App") ∈ rq_headers rq /\
    match b with
    | None | Some JNull | Some (JBool false) | Some (JNum 0) | Some (JStr EmptyString) =>
        rq_body rq = None /\ "Content-Type" ∉ (rq_headers rq).*1
    | Some j =>
        rq_body rq = Some (JSON_stringify j) /\
        ("Content-Type", "application/json") ∈ rq_headers rq
    end.
Proof.
  intros Ha Hs Hep. eexists. split; [by eapply gh_proxy_wire|].
  unfold GithubProxy.proxy_request. simpl. split.
  { by destruct m as [[|c r]|]. }
  split; [set_solver|]. split; [set_solver|].
  assert (Hno : "Content-Type" ∉ (GithubProxy.auth_headers (GithubProxy.token s) ++ []).*1).
  { rewrite app_nil_r. simpl. by refine (bool_decide_unpack _ _). }
  destruct b as [[|[]|[]|[]| |]|]; simpl; first [by split | split; [done | set_solver]].
Qed.

Lemma proxy_call_shape_witness :
  let w := mkWorld {[ "s1" := GithubProxy.Session "ghp_valid" "classic" 1700000000000 ]} 1 0 [] in
  exists rq : fetch_request,
    wire (GithubProxy.serve
            (POST (GithubProxy.Fields (Some "proxy") None None (Some "s1") (Some "/user/repos")
                     (Some "POST") (Some (JNum 0)))) Demo.env w).2 = [rq] /\
    rq_method rq = "POST" /\ rq_body rq = None.
Proof.
  intros w.
  destruct (proxy_call_shape Demo.env w None None (Some "s1") (Some "/user/repos")
              (Some "POST") (Some (JNum 0)) "s1" "/user/repos"
              (GithubProxy.Session "ghp_valid" "classic" 1700000000000))
    as (rq & Hwire & Hm & _ & _ & Hb & _); [reflexivity | by vm_compute | reflexivity |].
  exists rq. split; [exact Hwire|]. split; [exact Hm | exact Hb].
Defined.

End edges.

(** * Outbound calls *)

Section outbound.
Import JS Runtime GithubProxy Invariants Provenance.

(** X20.  Every outbound call is accounted for.  A request causes at most
    one call.  [create_session] calls the upstream's [/user] with the token
    the caller supplied; [proxy] calls with the token of the session the
    caller named, and only when that session is in the table and was at
    most one hour old at the sweep.  No other action calls out, so a stored
    token is never sent for a request that does not name its live
    session. *)
Theorem outbound_calls_accounted_for (req : Request fields) (e : Env) (w : World session) :
  wire (serve req e w).2 = wire w \/
  exists (f : fields) (rq : fetch_request),
    content req = Json f /\
    wire (serve req e w).2 = wire w ++ [rq] /\
    ((action f = Some "create_session" /\
      exists t, given (f_token f) = Some t /\ rq = verify_request t) \/
     (action f = Some "proxy" /\
      exists id s x,
        given (sessionId f) = Some id /\
        table w !! id = Some s /\
        clock e (ticks w) - createdAt s <= 3600000 /\
        given (endpoint f) = Some x /\
        rq = proxy_request s x f)).
Proof.
  unfold serve. case_bool_decide as Hm; [by left|].
  unfold try_catch, bind, cleanupSessions, Date_now, Map_update, req_json; simpl.
  destruct (content req) as [msg|f] eqn:Hc; simpl; [by left|].
  unfold dispatch.
  repeat case_bool_decide;
    unfold create_session, destroy_session, proxy,
      internal_error, bind, ret, throw, Map_get, Map_set, Map_delete, Date_now,
      generateSessionId, getRandomValues, fetch, response_json, read_login; simpl;
    repeat (match goal with
            | |- context [given ?x] => let E := fresh "E" in destruct (given x) eqn:E
            | |- context [@lookup _ _ (gmap _ _) _ ?k (sweep ?n ?t)] =>
                let E := fresh "E" in
                destruct (sweep n t !! k) as [?|] eqn:E; [apply gh_sweep_Some in E as [? ?]|]
            | |- context [upstream ?e ?k ?rq] => destruct (upstream e k rq) as [[]|]
            | |- context [ok ?r] => destruct (ok r)
            | |- context [match ?d with NotJson _ => _ | IsJson _ => _ end] => destruct d as [|[]]
            end; simpl);
    first [ by left
          | right; eexists _, _; split; [reflexivity|]; split; [reflexivity|];
            first [ left; split; [done|]; by eexists
                  | right; split; [done|]; eexists _, _, _; by repeat split ] ].
Qed.

Lemma list_lookup_snoc {A} (l : list A) (x : A) : (l ++ [x]) !! length l = Some x.
Proof. by rewrite lookup_app_r, Nat.sub_diag by lia. Qed.

Lemma verified_keep (e : Env) (t t' : gmap string session) (n n' d d' : nat)
    (l l' : list fetch_request) :
  t' ⊆ t -> l `prefix_of` l' ->
  tokens_verified e (mkWorld t n d l) -> tokens_verified e (mkWorld t' n' d' l').
Proof.
  intros Hsub [l2 ->] H id s Hs. simpl in Hs.
  destruct (H id s) as (k & r & Hk & Hup & Hok).
  { simpl. by eapply lookup_weaken. }
  exists k, r. split; [|done]. simpl in *. by apply lookup_app_l_Some.
Qed.

Lemma github_serve_verified (req : Request fields) (e : Env) (w : World session) :
  tokens_verified e w -> tokens_verified e (serve req e w).2.
Proof.
  intros H. unfold serve. case_bool_decide; [done|].
  destruct w as [t n d l].
  assert (Hsw : sweep (clock e n) t ⊆ t).
  { apply map_subseteq_spec. intros id s Hs. by apply gh_sweep_Some in Hs as [Hs _]. }
  unfold try_catch, bind, cleanupSessions, Date_now, Map_update, req_json; simpl.
  destruct (content req) as [msg|f]; simpl.
  { by eapply verified_keep. }
  unfold dispatch.
  repeat case_bool_decide;
    unfold create_session, destroy_session, proxy,
      internal_error, bind, ret, throw, Map_get, Map_set, Map_delete, Date_now,
      generateSessionId, getRandomValues, fetch, response_json, read_login; simpl;
    repeat (match goal with
            | |- context [given ?x] => destruct (given x)
            | |- context [@lookup _ _ (gmap _ _) _ ?k ?t] => destruct (t !! k) as [[]|]
            | |- context [upstream ?e ?k ?rq] =>
                let E := fresh "E" in destruct (upstream e k rq) as [?|] eqn:E
            | |- context [ok ?r] => let E := fresh "E" in destruct (ok r) eqn:E
            | |- context [match up_body ?r with NotJson _ => _ | IsJson _ => _ end] =>
                destruct (up_body r) as [|[]]
            end; simpl);
    try (eapply verified_keep; [| |exact H];
         [first [done | etrans; [apply delete_subseteq | done]]
         |first [done | by apply prefix_app_r]]);
    (intros id1 s1 Hs1; simpl in Hs1;
     apply lookup_insert_Some in Hs1 as [[_ <-]|[_ Hs1]]; simpl;
     [ eexists _, _; split; [apply list_lookup_snoc|]; by split
     | destruct (H id1 s1) as (k1 & r1 & Hk1 & Hup1 & Hok1);
       [simpl; by eapply lookup_weaken|];
       exists k1, r1; split; [|done]; simpl in *; by apply lookup_app_l_Some ]).
Qed.

(** X21.  In every state the GitHub proxy can reach, every token in the
    table is one that the upstream accepted: the list of outbound calls
    holds the call that verified it, and the upstream's answer to that call
    had a status in 200..299. *)
Theorem stored_tokens_were_verified (e : Env) (w : World session) (id : string) (s : session) :
  github_reachable e w -> table w !! id = Some s ->
  exists (k : nat) (r : reply),
    wire w !! k = Some (verify_request (token s)) /\
    upstream e k (verify_request (token s)) = Replied r /\
    200 <= up_status r <= 299.
Proof.
  intros Hreach Hs.
  assert (Hall : tokens_verified e w).
  { clear Hs. induction Hreach as [|w req _ IH]; [|by apply github_serve_verified].
    intros id' s' Hs'. cbn in Hs'. by rewrite lookup_empty in Hs'. }
  destruct (Hall id s Hs) as (k & r & Hk & Hup & Hok).
  exists k, r. split; [done|]. split; [done|].
  unfold ok in Hok. apply andb_true_iff in Hok as [? ?]. lia.
Qed.

Lemma stored_tokens_were_verified_witness :
  let w1 := (serve (POST (Fields (Some "create_session") (Some "ghp_valid") None
                            None None None None)) Demo.env boot).2 in
  table w1 !! minted Demo.env 0 = Some (Session "ghp_valid" "classic" 1700000000500) /\
  exists (k : nat) (r : reply),
    wire w1 !! k = Some (verify_request "ghp_valid") /\
    upstream Demo.env k (verify_request "ghp_valid") = Replied r /\
    200 <= up_status r <= 299.
Proof.
  intros w1.
  assert (Hs : table w1 !! minted Demo.env 0 =
               Some (Session "ghp_valid" "classic" 1700000000500)) by (by vm_compute).
  split; [exact Hs|].
  exact (stored_tokens_were_verified Demo.env w1 (minted Demo.env 0) _
           (github_serve _ _ _ (github_boot _)) Hs).
Defined.

End outbound.

(** * Retries and reads *)

Section retries.
Import JS Runtime.

Local Abbreviation vault_swept e w := (LlmProxy.sweep (clock e (ticks w)) (table w)).
Local Abbreviation github_swept e w := (GithubProxy.sweep (clock e (ticks w)) (table w)).

Lemma obj_set_idem (o : object) (p k : string) :
  obj_set (obj_set o p k) p k = obj_set o p k.
Proof.
  induction o as [|[p' k'] o IH]; simpl.
  - by destruct (decide (p = p)).
  - destruct (decide (p' = p)) as [->|Hne]; simpl.
    + by destruct (decide (p = p)).
    + destruct (decide (p' = p)); [done|]. by rewrite IH.
Qed.

Lemma obj_delete_idem (o : object) (p : string) :
  obj_delete (obj_delete o p) p = obj_delete o p.
Proof.
  unfold obj_delete. induction o as [|[p' k'] o IH]; [done|]. simpl.
  case_bool_decide as Hp; simpl; [done|].
  rewrite bool_decide_eq_false_2 by done. simpl. by rewrite IH.
Qed.



(** X23.  Reading does not write.  [check_key], [get_session] for a live
    session, and (in the GitHub proxy) [proxy] leave the table exactly as
    the sweep left it, whatever else the request holds and whatever the
    upstream answers. *)
Theorem reads_do_not_write :
  (forall (f : LlmProxy.fields) e w,
     LlmProxy.action f = Some "check_key" \/
     (LlmProxy.action f = Some "get_session" /\
      exists id, given (LlmProxy.sessionId f) = Some id /\ is_Some (vault_swept e w !! id)) ->
     table (LlmProxy.serve (POST f) e w).2 = vault_swept e w /\
     draws (LlmProxy.serve (POST f) e w).2 = draws w) /\
  (forall (f : GithubProxy.fields) e w,
     GithubProxy.action f = Some "proxy" ->
     table (GithubProxy.serve (POST f) e w).2 = github_swept e w /\
     draws (GithubProxy.serve (POST f) e w).2 = draws w).
Proof.
  split.
  - intros f e w H. rewrite llm_serve_post. unfold try_catch, LlmProxy.dispatch.
    destruct H as [H|(H & id & Hid & s & Hs)]; rewrite H; simpl.
    + unfold LlmProxy.check_key, bind, ret, Map_get.
      destruct (given (LlmProxy.sessionId f)); [|done].
      by destruct (given (LlmProxy.provider f)).
    + unfold LlmProxy.get_session, bind, ret, Map_get, Date_now. rewrite Hid. simpl.
      by rewrite Hs.
  - intros f e w H. rewrite gh_serve_post. unfold try_catch, GithubProxy.dispatch.
    rewrite H. simpl. unfold GithubProxy.proxy, bind, ret, Map_get, fetch, internal_error.
    destruct (given (GithubProxy.sessionId f)) as [id|]; [|done]. simpl.
    destruct (github_swept e w !! id) as [s|]; [|done].
    destruct (given (GithubProxy.endpoint f)) as [x|]; [|done]. simpl.
    by destruct (upstream e _ _).
Qed.

Lemma reads_do_not_write_witness :
  let w := mkWorld {[ "s1" := LlmProxy.Session [("openai", "sk-1")] 1700000000000 ]} 0 0 [] in
  table (LlmProxy.serve
           (POST (LlmProxy.Fields (Some "check_key") (Some "s1") (Some "openai") None))
           Demo.env w).2 = table w /\
  table (LlmProxy.serve
           (POST (LlmProxy.Fields (Some "get_session") (Some "s1") None None))
           Demo.env w).2 = table w.
Proof.
  intros w. destruct reads_do_not_write as [Hvault _].
  split.
  - etrans; [apply Hvault; by left | by vm_compute].
  - etrans; [apply Hvault; right; split; [done|]; exists "s1"; split; [done | eexists; by vm_compute]
            | by vm_compute].
Defined.

End retries.
